(** * zone_logger: the dual-device session core

    A shallow embedding of [zone_logger.py]: the console (iFit) session, the
    heart-rate strap (Polar) session and the cleanup block of [main], followed
    by the properties of the decode routines, of the reconnect and battery
    logic and of the shutdown path.

    Conventions of the embedding.
    - A [bytearray] is a [list byte]; an index is a [Z], as in Python.
    - A Python [int] is a [Z].
    - The quotients [raw / 100.0] and [raw / 1000.0] and the readings of
      [time.time()] are exact rationals ([Q]): rounding of binary floating
      point is left out of the model, so equalities between telemetry values
      are stated with [==].
    - The transport (the [BleakClient] object) is outside the program: the
      outcome of each of its operations is an input of the method that
      performs it, and every operation performed is recorded in a trace. *)

From Stdlib Require Import ZArith QArith List Bool Lia Lqa Sorting.Sorted.
From Stdlib Require Import Strings.Byte Strings.String.
Import ListNotations.

Open Scope bool_scope.
Open Scope Z_scope.

(** ** Python values used by the program *)

Module Py.

Definition bytes := list byte.

Definition byte_val (b : byte) : Z := Z.of_N (Byte.to_N b).

(** [prefix.startswith]: [sub] is read at the head of [data]. *)
Fixpoint starts_with (sub data : bytes) : bool :=
  match sub, data with
  | [], _ => true
  | _ :: _, [] => false
  | x :: sub', y :: data' => Byte.eqb x y && starts_with sub' data'
  end.

Fixpoint find_from (sub data : bytes) (i : Z) : Z :=
  if starts_with sub data then i
  else match data with
       | [] => -1
       | _ :: data' => find_from sub data' (i + 1)
       end.

(** [data.find(sub)]: the lowest offset at which [sub] occurs, [-1] when it
    does not occur. *)
Definition find (data sub : bytes) : Z := find_from sub data 0.

(** [data[lo:hi]] for [0 <= lo]: the slice is clipped to the buffer and
    never raises. *)
Definition slice (data : bytes) (lo hi : Z) : bytes :=
  firstn (Z.to_nat (hi - lo)) (skipn (Z.to_nat lo) data).

(** [int.from_bytes(bs, byteorder='little')]; the empty slice gives 0. *)
Fixpoint int_from_bytes_little (bs : bytes) : Z :=
  match bs with
  | [] => 0
  | b :: bs' => byte_val b + 256 * int_from_bytes_little bs'
  end.

(** [raw / d] for a positive literal [d], as an exact rational. *)
Definition truediv (raw : Z) (d : positive) : Q := raw # d.

(** The value of a hexadecimal digit. *)
Definition hex_digit (c : Ascii.ascii) : option N :=
  let n := Ascii.N_of_ascii c in
  (if (48 <=? n) && (n <=? 57) then Some (n - 48)
   else if (97 <=? n) && (n <=? 102) then Some (n - 87)
   else if (65 <=? n) && (n <=? 70) then Some (n - 55)
   else None)%N.

(** [bytes.fromhex(s)] for a string of digit pairs; the literals of the
    program are all of that form (Python raises [ValueError] on others, where
    the reading stops here). *)
Fixpoint fromhex (s : string) : bytes :=
  match s with
  | String hi (String lo rest) =>
      match hex_digit hi, hex_digit lo with
      | Some h, Some l =>
          match Byte.of_N (16 * h + l) with
          | Some b => b :: fromhex rest
          | None => []
          end
      | _, _ => []
      end
  | _ => []
  end%N.

End Py.

(** ** Exceptions, traces and the method monad *)

Inductive exn : Set :=
| IndexError
| ValueError
| BleakError
| KeyboardInterrupt.

(** [except Exception] catches everything but [KeyboardInterrupt]. *)
Definition is_Exception (e : exn) : bool :=
  match e with
  | KeyboardInterrupt => false
  | _ => true
  end.

Inductive outcome (A : Type) : Type :=
| Ok (a : A)
| Raise (e : exn).
Arguments Ok {A} a.
Arguments Raise {A} e.

Inductive device : Set := Console | Strap.

(** What a method does that is visible outside the session object. *)
Inductive event : Type :=
| EvConnect (d : device)
| EvStartNotify (d : device)
| EvStopNotify (d : device)
| EvDisconnect (d : device)
| EvWrite (packet : Py.bytes)
| EvReadBattery
| EvSleep (units : Q)
| EvLogError (d : device)
| EvCall (d : device) (method : string)
| EvRow (speed incline distance : option Q) (hr : option Z).

Definition trace := list event.

(** A method body over a session of type [S]: it ends normally or raises,
    keeps the assignments made before a raise, and records its events. *)
Definition M (S A : Type) : Type := S -> outcome A * S * trace.

Definition ret {S A} (a : A) : M S A := fun s => (Ok a, s, []).

Definition bind {S A B} (m : M S A) (k : A -> M S B) : M S B :=
  fun s =>
    match m s with
    | (Ok a, s1, t1) =>
        match k a s1 with
        | (r, s2, t2) => (r, s2, t1 ++ t2)
        end
    | (Raise e, s1, t1) => (Raise e, s1, t1)
    end.

Definition raise {S A} (e : exn) : M S A := fun s => (Raise e, s, []).

Definition get {S} : M S S := fun s => (Ok s, s, []).

Definition modify {S} (f : S -> S) : M S unit := fun s => (Ok tt, f s, []).

Definition emit {S} (ev : event) : M S unit := fun s => (Ok tt, s, [ev]).

(** An awaited transport operation: recorded, then ends as the transport
    decides. *)
Definition await {S A} (ev : event) (o : outcome A) : M S A :=
  fun s => (o, s, [ev]).

(** [try: body  except <caught>: handler]. *)
Definition try_except {S A} (body : M S A) (caught : exn -> bool)
    (handler : exn -> M S A) : M S A :=
  fun s =>
    match body s with
    | (Ok a, s1, t1) => (Ok a, s1, t1)
    | (Raise e, s1, t1) =>
        if caught e then
          match handler e s1 with
          | (r, s2, t2) => (r, s2, t1 ++ t2)
          end
        else (Raise e, s1, t1)
    end.

Declare Scope method_scope.
Delimit Scope method_scope with method.
Notation "x <- m ;; k" := (bind m (fun x => k))
  (at level 61, m at next level, right associativity) : method_scope.
Notation "m ;; k" := (bind m (fun _ => k))
  (at level 61, right associativity) : method_scope.
Open Scope method_scope.

Fixpoint for_each {S A} (xs : list A) (body : A -> M S unit) : M S unit :=
  match xs with
  | [] => ret tt
  | x :: xs' => body x ;; for_each xs' body
  end.

(** [try: body  finally: final]: [final] always runs; what it raises
    replaces the outcome of [body]. *)
Definition try_finally {S A} (body : M S A) (final : M S unit) : M S A :=
  fun s =>
    match body s with
    | (r, s1, t1) =>
        match final s1 with
        | (Ok _, s2, t2) => (r, s2, t1 ++ t2)
        | (Raise e, s2, t2) => (Raise e, s2, t1 ++ t2)
        end
    end.

(** ** Constants *)

Definition IFIT_INIT_SEQUENCE : list Py.bytes :=
  [ Py.fromhex "fe022c04";
    Py.fromhex "0012020402280428900701cec4b0aaa2a8949696";
    Py.fromhex "0112aca8a2bad0dccefe14003a52786486a6fc18";
    Py.fromhex "ff08324aa0880200004400000000000000000000" ].

Definition IFIT_POLL_SEQUENCE : list Py.bytes :=
  [ Py.fromhex "fe021403";
    Py.fromhex "001202040210041002000a1b9430000040500080";
    Py.fromhex "ff02182700000000000000000000000000000000" ].

(** ** The console session *)

Module IFitDevice.

Record t : Type := mk {
  address : string;
  client : bool;          (* [self.client] is a client object, not [None] *)
  speed : Q;
  incline : Q;
  distance : Q;
  connected : bool
}.

Definition init (addr : string) : t :=
  mk addr false 0 0 0 false.

Definition set_client (c : bool) (s : t) : t :=
  mk (address s) c (speed s) (incline s) (distance s) (connected s).
Definition set_speed (v : Q) (s : t) : t :=
  mk (address s) (client s) v (incline s) (distance s) (connected s).
Definition set_incline (v : Q) (s : t) : t :=
  mk (address s) (client s) (speed s) v (distance s) (connected s).
Definition set_distance (v : Q) (s : t) : t :=
  mk (address s) (client s) (speed s) (incline s) v (connected s).
Definition set_connected (c : bool) (s : t) : t :=
  mk (address s) (client s) (speed s) (incline s) (distance s) c.

(** What the transport answers to the operations of one method call. *)
Record env : Type := mk_env {
  connect_res : outcome unit;      (* [client.connect()] *)
  is_connected : bool;             (* [client.is_connected] read after it *)
  start_notify_res : outcome unit;
  write_res : Py.bytes -> outcome unit;
  stop_notify_res : outcome unit;
  disconnect_res : outcome unit
}.

Definition connect (e : env) : M t unit :=
  modify (set_client true) ;;
  await (EvConnect Console) (connect_res e) ;;
  modify (set_connected (is_connected e)).

Definition setup (e : env) : M t unit :=
  s <- get ;;
  if negb (connected s) then ret tt
  else
    await (EvStartNotify Console) (start_notify_res e) ;;
    for_each IFIT_INIT_SEQUENCE
      (fun packet => await (EvWrite packet) (write_res e packet)) ;;
    emit (EvSleep 2).

Definition update (e : env) : M t unit :=
  s <- get ;;
  if negb (connected s) then ret tt
  else
    try_except
      (for_each IFIT_POLL_SEQUENCE
         (fun packet => await (EvWrite packet) (write_res e packet)))
      is_Exception
      (fun _ => emit (EvLogError Console)).

Definition close (e : env) : M t unit :=
  s <- get ;;
  if client s && connected s then
    try_except
      (await (EvStopNotify Console) (stop_notify_res e))
      is_Exception
      (fun _ => ret tt) ;;
    await (EvDisconnect Console) (disconnect_res e)
  else ret tt.

Definition signature : Py.bytes := Py.fromhex "2e042e02".

(** The body of the [try] in [_notification_handler]. *)
Definition decode (data : Py.bytes) (idx : Z) : M t unit :=
  let start := idx + 5 in
  let speed_raw := Py.int_from_bytes_little (Py.slice data start (start + 2)) in
  modify (set_speed (Py.truediv speed_raw 100)) ;;
  let incline_raw :=
    Py.int_from_bytes_little (Py.slice data (start + 2) (start + 4)) in
  modify (set_incline (Py.truediv incline_raw 100)) ;;
  let distance_raw :=
    Py.int_from_bytes_little (Py.slice data (start + 6) (start + 8)) in
  modify (set_distance (Py.truediv distance_raw 1000)).

Definition _notification_handler (data : Py.bytes) : M t unit :=
  let idx := Py.find data signature in
  if negb (idx =? -1) then
    try_except (decode data idx)
      (fun e => match e with IndexError | ValueError => true | _ => false end)
      (fun _ => ret tt)
  else ret tt.

(** The session after the handler has run on [data]. *)
Definition notified (s : t) (data : Py.bytes) : t :=
  snd (fst (_notification_handler data s)).

End IFitDevice.

(** [data[i]] for [0 <= i]: [IndexError] past the end of the buffer. *)
Definition getitem {S} (data : Py.bytes) (i : Z) : M S Z :=
  match nth_error data (Z.to_nat i) with
  | Some b => ret (Py.byte_val b)
  | None => raise IndexError
  end.

(** ** The heart-rate strap session *)

Module PolarDevice.

Record t : Type := mk {
  address : string;
  client : bool;
  hr : Z;
  battery : Z;
  connected : bool;
  _last_battery_read : Q;
  _connection_start : Q
}.

Definition init (addr : string) : t :=
  mk addr false 0 0 false 0 0.

Definition set_client (c : bool) (s : t) : t :=
  mk (address s) c (hr s) (battery s) (connected s)
     (_last_battery_read s) (_connection_start s).
Definition set_hr (v : Z) (s : t) : t :=
  mk (address s) (client s) v (battery s) (connected s)
     (_last_battery_read s) (_connection_start s).
Definition set_battery (v : Z) (s : t) : t :=
  mk (address s) (client s) (hr s) v (connected s)
     (_last_battery_read s) (_connection_start s).
Definition set_connected (c : bool) (s : t) : t :=
  mk (address s) (client s) (hr s) (battery s) c
     (_last_battery_read s) (_connection_start s).
Definition set_last_battery_read (v : Q) (s : t) : t :=
  mk (address s) (client s) (hr s) (battery s) (connected s)
     v (_connection_start s).
Definition set_connection_start (v : Q) (s : t) : t :=
  mk (address s) (client s) (hr s) (battery s) (connected s)
     (_last_battery_read s) v.

(** What the transport and the clock answer during one method call. *)
Record env : Type := mk_env {
  link_up : bool;                  (* [client.is_connected] at the top of [update] *)
  connect_res : outcome unit;      (* [client.connect()] *)
  is_connected : bool;             (* [client.is_connected] after the settle delay *)
  t_connect : Q;                   (* [time.time()] in [connect] *)
  start_notify_res : outcome unit;
  t_check : Q;                     (* [time.time()] in [update] *)
  read_res : outcome Py.bytes;     (* [client.read_gatt_char(POLAR_BATT_UUID)] *)
  t_done : Q;                      (* [time.time()] in [_read_battery] *)
  stop_notify_res : outcome unit;
  disconnect_res : outcome unit
}.

Definition address_set (s : t) : bool :=
  negb (String.eqb (address s) EmptyString).

Definition connect (e : env) : M t unit :=
  s <- get ;;
  if negb (address_set s) then ret tt
  else
    try_except
      (modify (set_client true) ;;
       await (EvConnect Strap) (connect_res e) ;;
       emit (EvSleep 1) ;;
       modify (set_connected (is_connected e)) ;;
       s1 <- get ;;
       if connected s1 then modify (set_connection_start (t_connect e))
       else ret tt)
      is_Exception
      (fun _ => emit (EvLogError Strap) ;; modify (set_connected false)).

Definition _on_disconnect : M t unit :=
  modify (set_connected false).

Definition setup (e : env) : M t unit :=
  s <- get ;;
  if negb (connected s) then ret tt
  else
    try_except
      (await (EvStartNotify Strap) (start_notify_res e))
      is_Exception
      (fun _ => emit (EvLogError Strap) ;; modify (set_connected false)).

Definition _read_battery (e : env) : M t unit :=
  batt <- await EvReadBattery (read_res e) ;;
  b0 <- getitem batt 0 ;;
  modify (set_battery b0) ;;
  modify (set_last_battery_read (t_done e)).

(** [time.time() - self._last_battery_read > 60]. *)
Definition battery_due (e : env) (s : t) : bool :=
  negb (Qle_bool (t_check e - _last_battery_read s) 60).

Definition update (e : env) : M t unit :=
  s <- get ;;
  (if client s then modify (set_connected (link_up e)) else ret tt) ;;
  s1 <- get ;;
  if negb (connected s1) then
    connect e ;;
    s2 <- get ;;
    if connected s2 then setup e else ret tt
  else
    if battery_due e s1 then
      try_except (_read_battery e) is_Exception
        (fun _ => emit (EvLogError Strap))
    else ret tt.

Definition close (e : env) : M t unit :=
  s <- get ;;
  if client s && connected s then
    try_except
      (await (EvStopNotify Strap) (stop_notify_res e) ;;
       await (EvDisconnect Strap) (disconnect_res e))
      is_Exception
      (fun _ => ret tt)
  else ret tt.

(** The body of the [try] in [_hr_handler]. *)
Definition decode (data : Py.bytes) : M t unit :=
  match data with
  | [] => ret tt
  | _ :: _ =>
      flags <- getitem data 0 ;;
      let hr_fmt := Z.land flags 1 in
      hr_val <- (if hr_fmt =? 0 then getitem data 1
                 else ret (Py.int_from_bytes_little (Py.slice data 1 3))) ;;
      modify (set_hr hr_val)
  end.

Definition _hr_handler (data : Py.bytes) : M t unit :=
  try_except (decode data) is_Exception (fun _ => ret tt).

Definition notified (s : t) (data : Py.bytes) : t :=
  snd (fst (_hr_handler data s)).

End PolarDevice.

(** ** The orchestrator: the guarded part of [main] *)

Module Main.

(** The two session variables of [main]; [None] when the device was not
    found by the scan. *)
Record sessions : Type := mk {
  ifit : option IFitDevice.t;
  polar : option PolarDevice.t
}.

(** [if ifit: await ifit.<method>()]. *)
Definition on_ifit (name : string) (m : M IFitDevice.t unit) : M sessions unit :=
  fun ss =>
    match ifit ss with
    | None => (Ok tt, ss, [])
    | Some d =>
        match m d with
        | (r, d', tr) => (r, mk (Some d') (polar ss), EvCall Console name :: tr)
        end
    end.

(** [if polar: await polar.<method>()]. *)
Definition on_polar (name : string) (m : M PolarDevice.t unit) : M sessions unit :=
  fun ss =>
    match polar ss with
    | None => (Ok tt, ss, [])
    | Some d =>
        match m d with
        | (r, d', tr) => (r, mk (ifit ss) (Some d'), EvCall Strap name :: tr)
        end
    end.

(** What the outside answers during one iteration of the polling loop; the
    interrupt signal shows as [KeyboardInterrupt] at the inter-tick sleep. *)
Record tick_env : Type := mk_tick {
  ifit_env : IFitDevice.env;
  polar_env : PolarDevice.env;
  sleep_res : outcome unit
}.

Definition row (ss : sessions) : event :=
  EvRow (option_map IFitDevice.speed (ifit ss))
        (option_map IFitDevice.incline (ifit ss))
        (option_map IFitDevice.distance (ifit ss))
        (option_map PolarDevice.hr (polar ss)).

Definition tick (e : tick_env) : M sessions unit :=
  on_ifit "update" (IFitDevice.update (ifit_env e)) ;;
  on_polar "update" (PolarDevice.update (polar_env e)) ;;
  ss <- get ;;
  emit (row ss) ;;
  await (EvSleep 1) (sleep_res e).

(** [while True:] over the iterations that are observed. *)
Definition loop (ticks : list tick_env) : M sessions unit :=
  for_each ticks tick.

(** The [try] block of [main]: the setup calls, then the loop. *)
Definition body (ei : IFitDevice.env) (ep : PolarDevice.env)
    (ticks : list tick_env) : M sessions unit :=
  on_ifit "setup" (IFitDevice.setup ei) ;;
  on_polar "setup" (PolarDevice.setup ep) ;;
  on_polar "update" (PolarDevice.update ep) ;;
  emit (EvSleep 3) ;;
  loop ticks.

(** The [finally] block of [main]. *)
Definition cleanup (ci : IFitDevice.env) (cp : PolarDevice.env) : M sessions unit :=
  on_ifit "close" (IFitDevice.close ci) ;;
  on_polar "close" (PolarDevice.close cp).

(** [try: ... except KeyboardInterrupt: ... finally: ...]. *)
Definition guarded (ei : IFitDevice.env) (ep : PolarDevice.env)
    (ticks : list tick_env) (ci : IFitDevice.env) (cp : PolarDevice.env)
    : M sessions unit :=
  try_finally
    (try_except (body ei ep ticks)
       (fun e => match e with KeyboardInterrupt => true | _ => false end)
       (fun _ => ret tt))
    (cleanup ci cp).

(** How many times [d.close()] is entered in a trace. *)
Definition is_close (d : device) (ev : event) : bool :=
  match ev, d with
  | EvCall Console name, Console => String.eqb name "close"
  | EvCall Strap name, Strap => String.eqb name "close"
  | _, _ => false
  end.

Definition close_calls (d : device) (tr : trace) : nat :=
  List.length (filter (is_close d) tr).

End Main.

(** ** The start of [main]: choosing the devices and opening the sessions *)

Module Startup.

Definition IFIT_SERVICE_UUID : string := "00001533-1412-efde-1523-785feabcd123".
Definition POLAR_HR_SERVICE_UUID : string := "0000180d-0000-1000-8000-00805f9b34fb".

(** [str.lower] on ASCII text (service identifiers are ASCII). *)
Definition lower_char (c : Ascii.ascii) : Ascii.ascii :=
  let n := Ascii.N_of_ascii c in
  if ((65 <=? n) && (n <=? 90))%N then Ascii.ascii_of_N (n + 32) else c.

Fixpoint lower (s : string) : string :=
  match s with
  | EmptyString => EmptyString
  | String c s' => String (lower_char c) (lower s')
  end.

(** [sub in s] for strings. *)
Fixpoint contains (sub s : string) : bool :=
  String.prefix sub s
  || match s with
     | EmptyString => false
     | String _ s' => contains sub s'
     end.

(** [x in xs] for a list of strings. *)
Definition member (x : string) (xs : list string) : bool :=
  existsb (String.eqb x) xs.

(** One entry of [devices.values()]: the device [d] and its advertisement. *)
Record scanned : Type := mk_scanned {
  name : option string;            (* [d.name], possibly [None] *)
  address : string;                (* [d.address] *)
  service_uuids : list string      (* [adv.service_uuids] *)
}.

(** Truth value of an address variable: [None] and the empty string are
    false. *)
Definition truthy (a : option string) : bool :=
  match a with
  | None => false
  | Some x => negb (String.eqb x EmptyString)
  end.

Definition advertises_ifit (d : scanned) : bool :=
  member (lower IFIT_SERVICE_UUID) (map lower (service_uuids d)).

Definition looks_like_polar (d : scanned) : bool :=
  member POLAR_HR_SERVICE_UUID (map lower (service_uuids d))
  || match name d with
     | Some n => negb (String.eqb n EmptyString) && contains "Polar" n
     | None => false
     end.

(** The body of [for d, adv in devices.values():] on the pair
    [(ifit_address, polar_address)]. *)
Definition scan_step (acc : option string * option string) (d : scanned)
    : option string * option string :=
  let '(ifit_address, polar_address) := acc in
  let ifit_address :=
    if negb (truthy ifit_address) && advertises_ifit d
    then Some (address d) else ifit_address in
  let polar_address :=
    if negb (truthy polar_address)
    then (if looks_like_polar d then Some (address d) else polar_address)
    else polar_address in
  (ifit_address, polar_address).

Definition choose (devices : list scanned) : option string * option string :=
  fold_left scan_step devices (None, None).

(** From the end of the scan to the end of [main]: the sessions are
    constructed and connected, then the guarded part runs. *)
Definition main (devices : list scanned)
    (ci0 : IFitDevice.env) (cp0 : PolarDevice.env)
    (ei : IFitDevice.env) (ep : PolarDevice.env)
    (ticks : list Main.tick_env) (ci : IFitDevice.env) (cp : PolarDevice.env)
    : M Main.sessions unit :=
  let '(ifit_address, polar_address) := choose devices in
  (match ifit_address with
   | Some a =>
       if truthy ifit_address then
         modify (fun ss => Main.mk (Some (IFitDevice.init a)) (Main.polar ss)) ;;
         Main.on_ifit "connect" (IFitDevice.connect ci0)
       else ret tt
   | None => ret tt
   end) ;;
  (match polar_address with
   | Some a =>
       if truthy polar_address then
         modify (fun ss => Main.mk (Main.ifit ss) (Some (PolarDevice.init a))) ;;
         Main.on_polar "connect" (PolarDevice.connect cp0)
       else ret tt
   | None => ret tt
   end) ;;
  Main.guarded ei ep ticks ci cp.

(** [main] starts with both session variables set to [None]. *)
Definition no_sessions : Main.sessions := Main.mk None None.

End Startup.

(** ** Vocabulary of the statements *)

(** [sub] is read in [data] at offset [i]. *)
Definition occurs_at (sub data : Py.bytes) (i : Z) : bool :=
  (0 <=? i) && Py.starts_with sub (skipn (Z.to_nat i) data).

(** [idx] is the lowest offset at which [sub] is read in [data]. *)
Definition first_occurrence (sub data : Py.bytes) (idx : Z) : Prop :=
  occurs_at sub data idx = true /\
  forall j, 0 <= j < idx -> occurs_at sub data j = false.

(** The console session can reach a state from another by any of its
    methods, whatever the transport answers, or by a notification. *)
Inductive ifit_step (s : IFitDevice.t) : IFitDevice.t -> Prop :=
| step_connect e : ifit_step s (snd (fst (IFitDevice.connect e s)))
| step_setup e : ifit_step s (snd (fst (IFitDevice.setup e s)))
| step_update e : ifit_step s (snd (fst (IFitDevice.update e s)))
| step_close e : ifit_step s (snd (fst (IFitDevice.close e s)))
| step_notify data : ifit_step s (IFitDevice.notified s data).

Inductive ifit_reachable (addr : string) : IFitDevice.t -> Prop :=
| reach_init : ifit_reachable addr (IFitDevice.init addr)
| reach_step s s' :
    ifit_reachable addr s -> ifit_step s s' -> ifit_reachable addr s'.

Definition telemetry_in_bounds (s : IFitDevice.t) : Prop :=
  (0 <= IFitDevice.speed s <= 65535 # 100)%Q /\
  (0 <= IFitDevice.incline s <= 65535 # 100)%Q /\
  (0 <= IFitDevice.distance s <= 65535 # 1000)%Q.

(** The session after a method body has run, its outcome and its trace. *)
Definition state_after {S A} (m : M S A) (s : S) : S := snd (fst (m s)).
Definition outcome_of {S A} (m : M S A) (s : S) : outcome A := fst (fst (m s)).
Definition trace_of {S A} (m : M S A) (s : S) : trace := snd (m s).

(** [m] moves every session to one related to it by [R]. *)
Definition preserves {S A} (R : S -> S -> Prop) (m : M S A) : Prop :=
  forall s, R s (state_after m s).

(** A battery read was attempted during the tick [update e] from [s]. *)
Definition battery_read_attempted (e : PolarDevice.env) (s : PolarDevice.t) : bool :=
  existsb (fun ev => match ev with EvReadBattery => true | _ => false end)
          (snd (PolarDevice.update e s)).

(** [_read_battery] ran to its end during the tick: the read was attempted
    and the transport returned a value with a first byte. *)
Definition battery_read_succeeded (e : PolarDevice.env) (s : PolarDevice.t) : bool :=
  battery_read_attempted e s
  && match PolarDevice.read_res e with
     | Ok (_ :: _) => true
     | _ => false
     end.

(** The strap session after a run of [update] ticks, with the clock readings
    stored by the battery reads that succeeded, oldest first. *)
Fixpoint strap_run (es : list PolarDevice.env) (s : PolarDevice.t)
    : PolarDevice.t * list Q :=
  match es with
  | [] => (s, [])
  | e :: es' =>
      let s' := snd (fst (PolarDevice.update e s)) in
      let '(s'', reads) := strap_run es' s' in
      (s'', if battery_read_succeeded e s
            then PolarDevice.t_done e :: reads else reads)
  end.

(** The connection state the strap's [update] acts on, once reconciled with
    the transport. *)
Definition reconciled (e : PolarDevice.env) (s : PolarDevice.t) : bool :=
  if PolarDevice.client s then PolarDevice.link_up e else PolarDevice.connected s.

(** Step 1 of the strap's [update]: the session takes the link state of the
    transport when there is a client object. *)
Definition reconcile (e : PolarDevice.env) (s : PolarDevice.t) : PolarDevice.t :=
  if PolarDevice.client s
  then PolarDevice.set_connected (PolarDevice.link_up e) s
  else s.

(** 1 for a session that was constructed, 0 for an absent one. *)
Definition option_count {A} (o : option A) : nat :=
  match o with Some _ => 1%nat | None => 0%nat end.

Definition same_telemetry (s s' : IFitDevice.t) : Prop :=
  IFitDevice.speed s' = IFitDevice.speed s /\
  IFitDevice.incline s' = IFitDevice.incline s /\
  IFitDevice.distance s' = IFitDevice.distance s.

(** Every event recorded by [m] satisfies [P]. *)
Definition emits_only {S A} (P : event -> Prop) (m : M S A) : Prop :=
  forall s, Forall P (trace_of m s).

(** An operation that returns, or fails with an error of class [Exception]
    (anything but an interrupt). *)
Definition ordinary {A} (o : outcome A) : bool :=
  match o with
  | Ok _ => true
  | Raise x => is_Exception x
  end.

(** The packets of [ps] handed to the transport by a loop of acknowledged
    writes: all up to the first one whose write fails, that one included. *)
Fixpoint written (res : Py.bytes -> outcome unit) (ps : list Py.bytes)
    : list Py.bytes :=
  match ps with
  | [] => []
  | p :: ps' =>
      p :: match res p with
           | Ok _ => written res ps'
           | Raise _ => []
           end
  end.

(** The error of the first write of [ps] that fails. *)
Fixpoint first_failure (res : Py.bytes -> outcome unit) (ps : list Py.bytes)
    : option exn :=
  match ps with
  | [] => None
  | p :: ps' =>
      match res p with
      | Ok _ => first_failure res ps'
      | Raise x => Some x
      end
  end.

(** The strap session can reach a state from another by any of its methods,
    whatever the transport and the clock answer, by the disconnect callback
    or by a notification. *)
Inductive polar_step (s : PolarDevice.t) : PolarDevice.t -> Prop :=
| pstep_connect e : polar_step s (snd (fst (PolarDevice.connect e s)))
| pstep_setup e : polar_step s (snd (fst (PolarDevice.setup e s)))
| pstep_update e : polar_step s (snd (fst (PolarDevice.update e s)))
| pstep_close e : polar_step s (snd (fst (PolarDevice.close e s)))
| pstep_on_disconnect : polar_step s (snd (fst (PolarDevice._on_disconnect s)))
| pstep_notify data : polar_step s (PolarDevice.notified s data).

Inductive polar_reachable (addr : string) : PolarDevice.t -> Prop :=
| preach_init : polar_reachable addr (PolarDevice.init addr)
| preach_step s s' :
    polar_reachable addr s -> polar_step s s' -> polar_reachable addr s'.

(** All the transport answers of a strap environment are ordinary. *)
Definition ordinary_strap (e : PolarDevice.env) : bool :=
  ordinary (PolarDevice.connect_res e)
  && ordinary (PolarDevice.start_notify_res e)
  && ordinary (PolarDevice.read_res e)
  && ordinary (PolarDevice.stop_notify_res e)
  && ordinary (PolarDevice.disconnect_res e).

(** The rows handed to the CSV writer in a trace. *)
Definition is_row (ev : event) : bool :=
  match ev with
  | EvRow _ _ _ _ => true
  | _ => false
  end.

Definition rows (tr : trace) : nat := List.length (filter is_row tr).

(** A session variable is set in both or in neither. *)
Definition same_presence (ss ss' : Main.sessions) : Prop :=
  option_count (Main.ifit ss') = option_count (Main.ifit ss) /\
  option_count (Main.polar ss') = option_count (Main.polar ss).

(** [s'] has the value of [s] for the field [f]. *)
Definition keeps {S B} (f : S -> B) (s s' : S) : Prop := f s' = f s.

(** An event of a session method: an operation on the transport, a delay
    or an error log, not a step of the orchestrator. *)
Definition transport_event (ev : event) : Prop :=
  match ev with
  | EvCall _ _ | EvRow _ _ _ _ => False
  | _ => True
  end.

(** The address a session is constructed with: [if ifit_address:] lets only
    a non-empty address through. *)
Definition usable (a : option string) : option string :=
  if Startup.truthy a then a else None.

(** The console's [close] cannot raise under [ci]: an ordinary failure of the
    unsubscribe is swallowed, and the disconnect succeeds. *)
Definition console_close_safe (ci : IFitDevice.env) : bool :=
  ordinary (IFitDevice.stop_notify_res ci)
  && match IFitDevice.disconnect_res ci with
     | Ok _ => true
     | Raise _ => false
     end.

(** Nothing raises an interrupt or fails a poll write with one during the
    tick, and the inter-tick sleep returns. *)
Definition quiet_tick (e : Main.tick_env) : bool :=
  forallb (fun p => ordinary (IFitDevice.write_res (Main.ifit_env e) p))
          IFIT_POLL_SEQUENCE
  && ordinary_strap (Main.polar_env e)
  && match Main.sleep_res e with
     | Ok _ => true
     | Raise _ => false
     end.

(** The strap's [close] meets ordinary failures only under [cp]. *)
Definition strap_close_ordinary (cp : PolarDevice.env) : bool :=
  ordinary (PolarDevice.stop_notify_res cp)
  && ordinary (PolarDevice.disconnect_res cp).

(** The console columns of a row are empty. *)
Definition console_columns_empty (ev : event) : Prop :=
  match ev with
  | EvRow speed incline distance _ =>
      speed = None /\ incline = None /\ distance = None
  | _ => True
  end.

(** The heart-rate column of a row is empty. *)
Definition hr_column_empty (ev : event) : Prop :=
  match ev with
  | EvRow _ _ _ hr => hr = None
  | _ => True
  end.

(** The unsigned little-endian 16-bit integer at bytes [i, i+2) of [data],
    for a buffer that holds both bytes. *)
Definition uint16_le_at (data : Py.bytes) (i : Z) : Z :=
  Py.byte_val (nth (Z.to_nat i) data x00)
  + 256 * Py.byte_val (nth (Z.to_nat (i + 1)) data x00).

(** * Properties *)

(** ** Bytes, slices and the search *)

(** The literals of the program are read in full. *)
Lemma signature_bytes : IFitDevice.signature = [x2e; x04; x2e; x02].
Proof. reflexivity. Qed.

Lemma packet_lengths :
  map (@List.length byte) IFIT_INIT_SEQUENCE = [4; 20; 20; 20]%nat /\
  map (@List.length byte) IFIT_POLL_SEQUENCE = [4; 20; 20]%nat.
Proof. split; reflexivity. Qed.

Lemma byte_val_range (b : byte) : 0 <= Py.byte_val b < 256.
Proof.
  unfold Py.byte_val. pose proof (Byte.to_N_bounded b). lia.
Qed.

Lemma int_from_bytes_little_range (bs : Py.bytes) :
  0 <= Py.int_from_bytes_little bs < 256 ^ Z.of_nat (List.length bs).
Proof.
  induction bs as [|b bs IH].
  - simpl. lia.
  - cbn [Py.int_from_bytes_little List.length].
    rewrite Nat2Z.inj_succ, Z.pow_succ_r by lia.
    pose proof (byte_val_range b). lia.
Qed.

Lemma slice_length (data : Py.bytes) (lo hi : Z) :
  (List.length (Py.slice data lo hi) <= Z.to_nat (hi - lo))%nat.
Proof.
  unfold Py.slice. rewrite length_firstn. lia.
Qed.

(** A two-byte slice reads an integer below 65536, also when the buffer
    ends inside it. *)
Lemma slice2_range (data : Py.bytes) (lo : Z) :
  0 <= Py.int_from_bytes_little (Py.slice data lo (lo + 2)) <= 65535.
Proof.
  pose proof (int_from_bytes_little_range (Py.slice data lo (lo + 2))) as H.
  pose proof (slice_length data lo (lo + 2)) as L.
  replace (lo + 2 - lo) with 2 in L by lia.
  assert (256 ^ Z.of_nat (List.length (Py.slice data lo (lo + 2))) <= 256 ^ 2).
  { apply Z.pow_le_mono_r; lia. }
  change (256 ^ 2) with 65536 in *. lia.
Qed.

(** When both bytes are in the buffer the slice reads them, low byte first. *)
Lemma slice2_in_range (data : Py.bytes) (n : nat) (lo hi : byte) :
  nth_error data n = Some lo ->
  nth_error data (S n) = Some hi ->
  Py.int_from_bytes_little (Py.slice data (Z.of_nat n) (Z.of_nat n + 2))
  = Py.byte_val lo + 256 * Py.byte_val hi.
Proof.
  unfold Py.slice.
  replace (Z.of_nat n + 2 - Z.of_nat n) with 2 by lia.
  rewrite Nat2Z.id. change (Z.to_nat 2) with 2%nat.
  revert data. induction n as [|n IH]; intros [|x data] H0 H1;
    try discriminate.
  - destruct data as [|y data]; [discriminate|].
    cbn [nth_error] in H0, H1. injection H0 as ->. injection H1 as ->.
    cbn [skipn firstn Py.int_from_bytes_little]. lia.
  - cbn [nth_error] in H0, H1. cbn [skipn]. now apply IH.
Qed.

Lemma lor_shiftl_byte (lo hi : Z) :
  0 <= lo < 256 -> 0 <= hi ->
  Z.lor (Z.shiftl hi 8) lo = lo + 256 * hi.
Proof.
  intros Hlo Hhi.
  pose proof (Z.add_lor_land (Z.shiftl hi 8) lo) as E.
  assert (Z.land (Z.shiftl hi 8) lo = 0) as Hland.
  { apply Z.bits_inj'. intros n Hn.
    rewrite Z.land_spec, Z.bits_0.
    destruct (Z_lt_ge_dec n 8) as [Hlt|Hge].
    - rewrite Z.shiftl_spec_low by lia. reflexivity.
    - replace (Z.testbit lo n) with false; [apply andb_false_r|].
      symmetry. destruct (Z.eq_dec lo 0) as [->|Hnz]; [apply Z.bits_0|].
      apply Z.bits_above_log2; [lia|].
      apply Z.log2_lt_pow2; [lia|].
      apply Z.lt_le_trans with (2 ^ 8); [simpl; lia|].
      apply Z.pow_le_mono_r; lia. }
  rewrite Hland, Z.add_0_r in E. rewrite E.
  rewrite Z.shiftl_mul_pow2 by lia. change (2 ^ 8) with 256. lia.
Qed.

Lemma find_from_first (sub : Py.bytes) (n : nat) :
  forall (data : Py.bytes) (i : Z),
    Py.starts_with sub (skipn n data) = true ->
    (forall m, (m < n)%nat -> Py.starts_with sub (skipn m data) = false) ->
    Py.find_from sub data i = i + Z.of_nat n.
Proof.
  induction n as [|n IH]; intros data i Hn Hlt.
  - cbn [skipn] in Hn. destruct data; cbn [Py.find_from]; rewrite Hn; lia.
  - pose proof (Hlt 0%nat ltac:(lia)) as H0. cbn [skipn] in H0.
    destruct data as [|x data].
    + cbn [skipn] in Hn. congruence.
    + cbn [Py.find_from]. rewrite H0.
      rewrite (IH data (i + 1)).
      * lia.
      * exact Hn.
      * intros m Hm. apply (Hlt (S m)). lia.
Qed.

Lemma find_from_absent (sub data : Py.bytes) :
  forall i,
    (forall m, Py.starts_with sub (skipn m data) = false) ->
    Py.find_from sub data i = -1.
Proof.
  induction data as [|x data IH]; intros i H.
  - cbn [Py.find_from]. now rewrite (H 0%nat : Py.starts_with sub [] = false).
  - cbn [Py.find_from]. rewrite (H 0%nat : Py.starts_with sub (x :: data) = false).
    apply IH. intros m. apply (H (S m)).
Qed.


Lemma find_first_occurrence (data sub : Py.bytes) (idx : Z) :
  first_occurrence sub data idx -> Py.find data sub = idx.
Proof.
  intros [Hocc Hleast]. unfold occurs_at in Hocc.
  apply andb_prop in Hocc as [Hpos Hocc]. apply Z.leb_le in Hpos.
  unfold Py.find. rewrite (find_from_first sub (Z.to_nat idx)).
  - lia.
  - exact Hocc.
  - intros m Hm. specialize (Hleast (Z.of_nat m) ltac:(lia)).
    unfold occurs_at in Hleast. rewrite Nat2Z.id in Hleast.
    apply andb_false_iff in Hleast as [H|H]; [apply Z.leb_gt in H; lia|exact H].
Qed.

Lemma find_absent (data sub : Py.bytes) :
  (forall i, occurs_at sub data i = false) -> Py.find data sub = -1.
Proof.
  intros H. apply find_from_absent. intros m.
  specialize (H (Z.of_nat m)). unfold occurs_at in H.
  rewrite Nat2Z.id in H.
  apply andb_false_iff in H as [H|H]; [apply Z.leb_gt in H; lia|exact H].
Qed.


(** ** Method bodies that keep a relation *)

Section Preservation.

Context {S : Type} (R : S -> S -> Prop).
Hypothesis R_refl : forall s, R s s.
Hypothesis R_trans : forall s1 s2 s3, R s1 s2 -> R s2 s3 -> R s1 s3.

Lemma preserves_ret {A} (a : A) : preserves R (ret a).
Proof. intros s. apply R_refl. Qed.

Lemma preserves_raise {A} (e : exn) : preserves R (@raise S A e).
Proof. intros s. apply R_refl. Qed.

Lemma preserves_get : preserves R (@get S).
Proof. intros s. apply R_refl. Qed.

Lemma preserves_emit (ev : event) : preserves R (@emit S ev).
Proof. intros s. apply R_refl. Qed.

Lemma preserves_await {A} (ev : event) (o : outcome A) :
  preserves R (@await S A ev o).
Proof. intros s. apply R_refl. Qed.

Lemma preserves_modify (f : S -> S) :
  (forall s, R s (f s)) -> preserves R (modify f).
Proof. intros H s. apply H. Qed.

Lemma preserves_bind {A B} (m : M S A) (k : A -> M S B) :
  preserves R m -> (forall a, preserves R (k a)) -> preserves R (bind m k).
Proof.
  intros Hm Hk s. specialize (Hm s).
  unfold state_after, bind in *.
  destruct (m s) as [[[a|e] s1] t1]; cbn [fst snd] in *.
  - specialize (Hk a s1). unfold state_after in Hk.
    destruct (k a s1) as [[r s2] t2]; cbn [fst snd] in *.
    eapply R_trans; eassumption.
  - exact Hm.
Qed.

Lemma preserves_try_except {A} (body : M S A) caught (handler : exn -> M S A) :
  preserves R body -> (forall e, preserves R (handler e)) ->
  preserves R (try_except body caught handler).
Proof.
  intros Hb Hh s. specialize (Hb s).
  unfold state_after, try_except in *.
  destruct (body s) as [[[a|e] s1] t1]; cbn [fst snd] in *.
  - exact Hb.
  - destruct (caught e); cbn [fst snd]; [|exact Hb].
    specialize (Hh e s1). unfold state_after in Hh.
    destruct (handler e s1) as [[r s2] t2]; cbn [fst snd] in *.
    eapply R_trans; eassumption.
Qed.

Lemma preserves_for_each {A} (xs : list A) (body : A -> M S unit) :
  (forall x, preserves R (body x)) -> preserves R (for_each xs body).
Proof.
  intros Hb. induction xs as [|x xs IH]; cbn [for_each].
  - apply preserves_ret.
  - apply preserves_bind; [apply Hb|intros _; exact IH].
Qed.

End Preservation.

Ltac preserve_step :=
  lazymatch goal with
  | |- preserves _ (if ?c then _ else _) => destruct c
  | |- preserves _ (match ?d with [] => _ | _ :: _ => _ end) => destruct d
  | |- preserves _ (ret _) => apply preserves_ret
  | |- preserves _ (raise _) => apply preserves_raise
  | |- preserves _ get => apply preserves_get
  | |- preserves _ (emit _) => apply preserves_emit
  | |- preserves _ (await _ _) => apply preserves_await
  | |- preserves _ (modify _) => apply preserves_modify
  | |- preserves _ (bind _ _) => apply preserves_bind; [| |intros ?; cbv beta]
  | |- preserves _ (try_except _ _ _) =>
      apply preserves_try_except; [| |intros ?; cbv beta]
  | |- preserves _ (for_each _ _) =>
      apply preserves_for_each; [| |intros ?; cbv beta]
  end.

(** ** The console session: the notification handler *)

Lemma same_telemetry_refl s : same_telemetry s s.
Proof. repeat split. Qed.

Lemma same_telemetry_trans s1 s2 s3 :
  same_telemetry s1 s2 -> same_telemetry s2 s3 -> same_telemetry s1 s3.
Proof. unfold same_telemetry. intuition congruence. Qed.

Ltac telemetry_kept :=
  repeat (preserve_step;
          try exact same_telemetry_refl; try exact same_telemetry_trans);
  try (intros ?; exact (same_telemetry_refl _)).

Lemma connect_keeps_telemetry e : preserves same_telemetry (IFitDevice.connect e).
Proof. unfold IFitDevice.connect. telemetry_kept. Qed.

Lemma setup_keeps_telemetry e : preserves same_telemetry (IFitDevice.setup e).
Proof. unfold IFitDevice.setup. telemetry_kept. Qed.

Lemma update_keeps_telemetry e : preserves same_telemetry (IFitDevice.update e).
Proof. unfold IFitDevice.update. telemetry_kept. Qed.

Lemma close_keeps_telemetry e : preserves same_telemetry (IFitDevice.close e).
Proof. unfold IFitDevice.close. telemetry_kept. Qed.

(** The handler never raises and performs no transport operation. *)
Lemma notification_handler_total (s : IFitDevice.t) (data : Py.bytes) :
  outcome_of (IFitDevice._notification_handler data) s = Ok tt /\
  trace_of (IFitDevice._notification_handler data) s = [].
Proof.
  unfold outcome_of, trace_of, IFitDevice._notification_handler.
  destruct (negb (Py.find data IFitDevice.signature =? -1)); split; reflexivity.
Qed.

(** The [except] clause of the handler is never entered: no slice raises. *)
Lemma decode_never_raises (s : IFitDevice.t) (data : Py.bytes) (idx : Z) :
  outcome_of (IFitDevice.decode data idx) s = Ok tt.
Proof. reflexivity. Qed.

Lemma notified_absent (s : IFitDevice.t) (data : Py.bytes) :
  Py.find data IFitDevice.signature = -1 -> IFitDevice.notified s data = s.
Proof.
  intros H. unfold IFitDevice.notified, IFitDevice._notification_handler.
  rewrite H. reflexivity.
Qed.

Lemma notified_found (s : IFitDevice.t) (data : Py.bytes) :
  Py.find data IFitDevice.signature <> -1 ->
  let idx := Py.find data IFitDevice.signature in
  IFitDevice.notified s data =
  IFitDevice.mk (IFitDevice.address s) (IFitDevice.client s)
    (Py.truediv (Py.int_from_bytes_little (Py.slice data (idx + 5) (idx + 7))) 100)
    (Py.truediv (Py.int_from_bytes_little (Py.slice data (idx + 7) (idx + 9))) 100)
    (Py.truediv (Py.int_from_bytes_little (Py.slice data (idx + 11) (idx + 13))) 1000)
    (IFitDevice.connected s).
Proof.
  intros H idx. unfold IFitDevice.notified, IFitDevice._notification_handler.
  fold idx. apply Z.eqb_neq in H. fold idx in H. rewrite H.
  cbn -[Py.slice Py.int_from_bytes_little Py.truediv].
  replace (idx + 5 + 2) with (idx + 7) by lia.
  replace (idx + 5 + 4) with (idx + 9) by lia.
  replace (idx + 5 + 6) with (idx + 11) by lia.
  replace (idx + 5 + 8) with (idx + 13) by lia.
  reflexivity.
Qed.

(** A buffer in which the signature is read nowhere leaves the session as
    it was. *)
Lemma notified_without_signature (s : IFitDevice.t) (data : Py.bytes) :
  (forall i, occurs_at IFitDevice.signature data i = false) ->
  IFitDevice.notified s data = s.
Proof.
  intros H. apply notified_absent. now apply find_absent.
Qed.

(** The handler assigns the three fields together or none of them. *)
Lemma notified_all_or_none (s : IFitDevice.t) (data : Py.bytes) :
  IFitDevice.notified s data = s
  \/ exists v1 v2 v3 : Z,
       IFitDevice.speed (IFitDevice.notified s data) = Py.truediv v1 100 /\
       IFitDevice.incline (IFitDevice.notified s data) = Py.truediv v2 100 /\
       IFitDevice.distance (IFitDevice.notified s data) = Py.truediv v3 1000 /\
       0 <= v1 <= 65535 /\ 0 <= v2 <= 65535 /\ 0 <= v3 <= 65535.
Proof.
  destruct (Z.eq_dec (Py.find data IFitDevice.signature) (-1)) as [E|E].
  - left. now apply notified_absent.
  - right. rewrite (notified_found s data E). cbn [IFitDevice.speed
      IFitDevice.incline IFitDevice.distance].
    set (idx := Py.find data IFitDevice.signature).
    pose proof (slice2_range data (idx + 5)) as H1.
    pose proof (slice2_range data (idx + 7)) as H2.
    pose proof (slice2_range data (idx + 11)) as H3.
    replace (idx + 5 + 2) with (idx + 7) in H1 by lia.
    replace (idx + 7 + 2) with (idx + 9) in H2 by lia.
    replace (idx + 11 + 2) with (idx + 13) in H3 by lia.
    do 3 eexists.
    split; [reflexivity|]. split; [reflexivity|]. split; [reflexivity|].
    split; [exact H1|]. split; [exact H2|exact H3].
Qed.

(** What the handler assigns, read through the slices of the source; a
    slice that runs past the end of the buffer is clipped. *)
Lemma console_decode_slices
    (s : IFitDevice.t) (data : Py.bytes) (idx : Z)
    (Hidx : first_occurrence IFitDevice.signature data idx) :
  IFitDevice.speed (IFitDevice.notified s data)
    = Py.truediv (Py.int_from_bytes_little (Py.slice data (idx + 5) (idx + 7))) 100
  /\ IFitDevice.incline (IFitDevice.notified s data)
    = Py.truediv (Py.int_from_bytes_little (Py.slice data (idx + 7) (idx + 9))) 100
  /\ IFitDevice.distance (IFitDevice.notified s data)
    = Py.truediv (Py.int_from_bytes_little (Py.slice data (idx + 11) (idx + 13))) 1000.
Proof.
  pose proof (find_first_occurrence _ _ _ Hidx) as Hfind.
  assert (Py.find data IFitDevice.signature <> -1) as Hne.
  { destruct Hidx as [Hocc _]. unfold occurs_at in Hocc.
    apply andb_prop in Hocc as [Hpos _]. apply Z.leb_le in Hpos. lia. }
  rewrite (notified_found s data Hne), Hfind.
  repeat split.
Qed.

(** A two-byte slice inside the buffer reads the 16-bit integer at its
    offset. *)
Lemma slice2_uint16 (data : Py.bytes) (i : Z) :
  0 <= i -> i + 2 <= Z.of_nat (List.length data) ->
  Py.int_from_bytes_little (Py.slice data i (i + 2)) = uint16_le_at data i.
Proof.
  intros Hpos Hlen. unfold uint16_le_at.
  replace (Z.to_nat (i + 1)) with (S (Z.to_nat i)) by lia.
  rewrite <- (Z2Nat.id i Hpos) at 1 2.
  apply slice2_in_range; apply nth_error_nth'; lia.
Qed.

(** C1 (as amended): when [idx] is the lowest offset at which the signature
    is read in the buffer, and the buffer holds the bytes up to [idx + 13],
    the handler sets [speed] to the unsigned little-endian 16-bit integer at
    bytes [idx+5, idx+7) over 100, [incline] to the one at bytes
    [idx+7, idx+9) over 100 and [distance] to the one at bytes
    [idx+11, idx+13) over 1000. *)
Theorem console_decode_at_first_signature
    (s : IFitDevice.t) (data : Py.bytes) (idx : Z)
    (Hidx : first_occurrence IFitDevice.signature data idx)
    (Hlen : idx + 13 <= Z.of_nat (List.length data)) :
  IFitDevice.speed (IFitDevice.notified s data)
    = Py.truediv (uint16_le_at data (idx + 5)) 100
  /\ IFitDevice.incline (IFitDevice.notified s data)
    = Py.truediv (uint16_le_at data (idx + 7)) 100
  /\ IFitDevice.distance (IFitDevice.notified s data)
    = Py.truediv (uint16_le_at data (idx + 11)) 1000.
Proof.
  assert (0 <= idx) as Hpos.
  { destruct Hidx as [Hocc _]. unfold occurs_at in Hocc.
    apply andb_prop in Hocc as [Hpos _]. now apply Z.leb_le in Hpos. }
  destruct (console_decode_slices s data idx Hidx) as (Hs & Hi & Hd).
  rewrite Hs, Hi, Hd.
  replace (idx + 7) with (idx + 5 + 2) at 1 by lia.
  replace (idx + 9) with (idx + 7 + 2) by lia.
  replace (idx + 13) with (idx + 11 + 2) by lia.
  rewrite !slice2_uint16 by lia.
  repeat split.
Qed.

(** The frame used in the examples: signature, one byte, then the
    telemetry block [64 00 0A 00 00 00 E8 03]. *)
Lemma console_decode_at_first_signature_witness :
  let data := IFitDevice.signature
              ++ [x00; x64; x00; x0a; x00; x00; x00; xe8; x03] in
  first_occurrence IFitDevice.signature data 0 /\
  0 + 13 <= Z.of_nat (List.length data) /\
  IFitDevice.speed (IFitDevice.notified (IFitDevice.init "") data)
    = Py.truediv (uint16_le_at data (0 + 5)) 100 /\
  uint16_le_at data (0 + 5) = 100.
Proof.
  intros data.
  assert (first_occurrence IFitDevice.signature data 0) as H.
  { split; [reflexivity|intros j Hj; lia]. }
  assert (0 + 13 <= Z.of_nat (List.length data)) as L by (cbn; lia).
  split; [exact H|]. split; [exact L|]. split; [|reflexivity].
  exact (proj1 (console_decode_at_first_signature
                  (IFitDevice.init "") data 0 H L)).
Defined.

(** C1 (as stated) fails when the signature is read at two offsets: the
    handler decodes after the lowest one. *)
Lemma console_decode_second_signature_ignored :
  let data := IFitDevice.signature ++ IFitDevice.signature
              ++ [x00; x64; x00; x0a; x00; x00; x00; xe8; x03] in
  occurs_at IFitDevice.signature data 4 = true /\
  ~ (IFitDevice.speed (IFitDevice.notified (IFitDevice.init "") data)
     == Py.truediv (Py.int_from_bytes_little (Py.slice data (4 + 5) (4 + 7))) 100)%Q.
Proof.
  split; [reflexivity|].
  vm_compute. discriminate.
Qed.

(** C2 (the code at the failing input): a frame cut after the speed field
    is not discarded; [speed] takes the value read and [incline] and
    [distance], whose slices are empty, are overwritten with zero. *)
Theorem console_decode_truncated_frame_mutates :
  let before := IFitDevice.mk "" true 1 (1 # 10) 1 true in
  let data := IFitDevice.signature ++ [x00; x2c; x01] in
  let after := IFitDevice.notified before data in
  Py.slice data 7 9 = [] /\ Py.slice data 11 13 = [] /\
  (IFitDevice.speed after == 3)%Q /\
  (IFitDevice.incline after == 0)%Q /\
  (IFitDevice.distance after == 0)%Q /\
  after <> before.
Proof.
  cbv zeta. repeat split; try reflexivity.
  intros H. apply (f_equal IFitDevice.speed) in H. vm_compute in H. discriminate.
Qed.

(** C3 (as amended): one byte separates the signature from the telemetry
    block.  For a buffer made of the signature, one byte and the bytes
    [spd_lo spd_hi inc_lo inc_hi gap_lo gap_hi dist_lo dist_hi] (and anything
    after them), speed is [(spd_hi<<8|spd_lo)/100], incline is
    [(inc_hi<<8|inc_lo)/100] and distance is [(dist_hi<<8|dist_lo)/1000]; with
    the block [64 00 0A 00 00 00 E8 03] they are 1.00, 0.10 and 1.00. *)
Theorem console_decode_golden
    (s : IFitDevice.t) (pad : byte)
    (spd_lo spd_hi inc_lo inc_hi gap_lo gap_hi dist_lo dist_hi : byte)
    (rest : Py.bytes) :
  let u16 lo hi := Z.lor (Z.shiftl (Py.byte_val hi) 8) (Py.byte_val lo) in
  let frame block := IFitDevice.signature ++ pad :: block ++ rest in
  let after :=
    IFitDevice.notified s
      (frame [spd_lo; spd_hi; inc_lo; inc_hi; gap_lo; gap_hi; dist_lo; dist_hi]) in
  let golden :=
    IFitDevice.notified s (frame [x64; x00; x0a; x00; x00; x00; xe8; x03]) in
  (IFitDevice.speed after = Py.truediv (u16 spd_lo spd_hi) 100 /\
   IFitDevice.incline after = Py.truediv (u16 inc_lo inc_hi) 100 /\
   IFitDevice.distance after = Py.truediv (u16 dist_lo dist_hi) 1000)
  /\ ((IFitDevice.speed golden == 1)%Q /\
      (IFitDevice.incline golden == 1 # 10)%Q /\
      (IFitDevice.distance golden == 1)%Q).
Proof.
  cbv zeta. split.
  - rewrite !lor_shiftl_byte
      by (try apply byte_val_range; apply (proj1 (byte_val_range _))).
    set (data := IFitDevice.signature ++ pad
           :: [spd_lo; spd_hi; inc_lo; inc_hi; gap_lo; gap_hi; dist_lo; dist_hi]
           ++ rest).
    assert (Py.find data IFitDevice.signature = 0) as Hfind by reflexivity.
    assert (Py.find data IFitDevice.signature <> -1) as Hne by (rewrite Hfind; lia).
    rewrite (notified_found s data Hne), Hfind.
    cbn [IFitDevice.speed IFitDevice.incline IFitDevice.distance].
    change (Py.slice data (0 + 5) (0 + 7)) with [spd_lo; spd_hi].
    change (Py.slice data (0 + 7) (0 + 9)) with [inc_lo; inc_hi].
    change (Py.slice data (0 + 11) (0 + 13)) with [dist_lo; dist_hi].
    unfold Py.truediv. cbn [Py.int_from_bytes_little].
    repeat split; f_equal; lia.
  - repeat split.
Qed.

(** C3 (as stated) fails: with the block right after the signature the
    fields are read one byte late, and speed is 25.60, not 1.00. *)
Lemma golden_block_right_after_signature_fails :
  let data := IFitDevice.signature ++ [x64; x00; x0a; x00; x00; x00; xe8; x03] in
  let after := IFitDevice.notified (IFitDevice.init "") data in
  (IFitDevice.speed after == 2560 # 100)%Q /\
  ~ ((IFitDevice.speed after == 1)%Q /\
     (IFitDevice.incline after == 1 # 10)%Q /\
     (IFitDevice.distance after == 1)%Q).
Proof.
  cbv zeta. split; [reflexivity|].
  intros [H _]. vm_compute in H. discriminate.
Qed.

(** ** The console session: bounds of the telemetry fields *)

Lemma truediv_bounds (raw : Z) (d : positive) :
  0 <= raw <= 65535 -> (0 <= Py.truediv raw d <= 65535 # d)%Q.
Proof.
  intros H. unfold Py.truediv, Qle. cbn [Qnum Qden]. nia.
Qed.

Lemma same_telemetry_bounds (s s' : IFitDevice.t) :
  same_telemetry s s' -> telemetry_in_bounds s -> telemetry_in_bounds s'.
Proof.
  unfold same_telemetry, telemetry_in_bounds.
  intros (-> & -> & ->). exact (fun H => H).
Qed.

Lemma notified_bounds (s : IFitDevice.t) (data : Py.bytes) :
  telemetry_in_bounds s -> telemetry_in_bounds (IFitDevice.notified s data).
Proof.
  intros Hs.
  destruct (notified_all_or_none s data)
    as [->|(v1 & v2 & v3 & E1 & E2 & E3 & B1 & B2 & B3)]; [exact Hs|].
  unfold telemetry_in_bounds. rewrite E1, E2, E3.
  auto using truediv_bounds.
Qed.

(** C10: in every state a console session can reach, by notifications and
    by its methods under any answers of the transport, speed and incline lie
    in [0, 655.35] and distance lies in [0, 65.535]. *)
Theorem telemetry_bounds_invariant (addr : string) (s : IFitDevice.t)
    (Hreach : ifit_reachable addr s) :
  (0 <= IFitDevice.speed s <= 655.35)%Q /\
  (0 <= IFitDevice.incline s <= 655.35)%Q /\
  (0 <= IFitDevice.distance s <= 65.535)%Q.
Proof.
  assert (telemetry_in_bounds s) as Hb.
  { induction Hreach as [|s s' _ IH Hstep].
    - unfold telemetry_in_bounds, Qle. cbn. lia.
    - destruct Hstep.
      + exact (same_telemetry_bounds _ _ (connect_keeps_telemetry e s) IH).
      + exact (same_telemetry_bounds _ _ (setup_keeps_telemetry e s) IH).
      + exact (same_telemetry_bounds _ _ (update_keeps_telemetry e s) IH).
      + exact (same_telemetry_bounds _ _ (close_keeps_telemetry e s) IH).
      + now apply notified_bounds. }
  destruct Hb as ((A1 & A2) & (B1 & B2) & (C1 & C2)).
  assert (65535 # 100 <= 655.35)%Q as E1 by (vm_compute; discriminate).
  assert (65535 # 1000 <= 65.535)%Q as E2 by (vm_compute; discriminate).
  repeat split; try assumption; eapply Qle_trans; eassumption.
Qed.

(** A session that has received the largest frame sits on the upper bounds. *)
Lemma telemetry_bounds_invariant_witness :
  let s := IFitDevice.notified (IFitDevice.init "treadmill")
             (IFitDevice.signature
              ++ [x00; xff; xff; xff; xff; x00; x00; xff; xff]) in
  ifit_reachable "treadmill" s /\
  ((0 <= IFitDevice.speed s <= 655.35)%Q /\
   (0 <= IFitDevice.incline s <= 655.35)%Q /\
   (0 <= IFitDevice.distance s <= 65.535)%Q).
Proof.
  intros s.
  assert (ifit_reachable "treadmill" s) as H.
  { eapply reach_step; [apply reach_init|apply step_notify]. }
  split; [exact H|].
  exact (telemetry_bounds_invariant "treadmill" s H).
Defined.

(** ** The strap session: the heart-rate handler *)

Lemma hr_handler_total (s : PolarDevice.t) (data : Py.bytes) :
  outcome_of (PolarDevice._hr_handler data) s = Ok tt /\
  trace_of (PolarDevice._hr_handler data) s = [].
Proof.
  unfold outcome_of, trace_of, PolarDevice._hr_handler, try_except.
  destruct data as [|flags rest]; [split; reflexivity|].
  unfold PolarDevice.decode, getitem. cbn [nth_error Z.to_nat].
  cbn -[Py.byte_val Z.land Py.slice Py.int_from_bytes_little].
  destruct (Z.land (Py.byte_val flags) 1 =? 0).
  - destruct rest as [|b rest]; split; reflexivity.
  - split; reflexivity.
Qed.

Lemma land_1_testbit (v : Z) : (Z.land v 1 =? 0) = negb (Z.testbit v 0).
Proof.
  replace (Z.land v 1) with (v mod 2)
    by (symmetry; apply (Z.land_ones v 1); lia).
  rewrite <- Z.bit0_mod.
  destruct (Z.testbit v 0); reflexivity.
Qed.

Lemma hr_notified_cons (s : PolarDevice.t) (flags : byte) (rest : Py.bytes) :
  PolarDevice.notified s (flags :: rest) =
  if Z.testbit (Py.byte_val flags) 0 then
    PolarDevice.set_hr
      (Py.int_from_bytes_little (Py.slice (flags :: rest) 1 3)) s
  else
    match rest with
    | b :: _ => PolarDevice.set_hr (Py.byte_val b) s
    | [] => s
    end.
Proof.
  unfold PolarDevice.notified, PolarDevice._hr_handler, try_except,
    PolarDevice.decode, getitem.
  cbn [nth_error Z.to_nat].
  cbn -[Py.byte_val Z.land Py.slice Py.int_from_bytes_little Z.testbit].
  rewrite land_1_testbit.
  destruct (Z.testbit (Py.byte_val flags) 0); cbn [negb].
  - reflexivity.
  - destruct rest as [|b rest]; reflexivity.
Qed.

(** The heart-rate handler, case by case.  An empty buffer is ignored.
    Otherwise bit 0 of the first byte selects the width: clear, [hr] becomes
    the byte at index 1, and when there is no such byte the error is swallowed
    and [hr] keeps its value; set, [hr] becomes the little-endian integer of
    the slice [data[1:3]], which is the 16-bit integer at indices 1..2 when
    both bytes are there.  The handler never raises, and whenever the decode
    raises the session is left as it was.  [00 3C] and [01 3C 00] give 60,
    [01 64 00] gives 100. *)
Lemma hr_handler_cases (s : PolarDevice.t) (data : Py.bytes) :
  (match data with
   | [] => PolarDevice.notified s data = s
   | flags :: rest =>
       if Z.testbit (Py.byte_val flags) 0 then
         PolarDevice.hr (PolarDevice.notified s data)
         = Py.int_from_bytes_little (Py.slice data 1 3)
         /\ (forall lo hi tl, rest = lo :: hi :: tl ->
             PolarDevice.hr (PolarDevice.notified s data)
             = Py.byte_val lo + 256 * Py.byte_val hi)
       else
         match rest with
         | b :: _ => PolarDevice.hr (PolarDevice.notified s data) = Py.byte_val b
         | [] => PolarDevice.notified s data = s
         end
   end)
  /\ outcome_of (PolarDevice._hr_handler data) s = Ok tt
  /\ (forall e, outcome_of (PolarDevice.decode data) s = Raise e ->
      PolarDevice.notified s data = s)
  /\ PolarDevice.hr (PolarDevice.notified s [x00; x3c]) = 60
  /\ PolarDevice.hr (PolarDevice.notified s [x01; x3c; x00]) = 60
  /\ PolarDevice.hr (PolarDevice.notified s [x01; x64; x00]) = 100.
Proof.
  split; [|split; [apply hr_handler_total|split; [|repeat split]]].
  - destruct data as [|flags rest]; [reflexivity|].
    rewrite hr_notified_cons.
    destruct (Z.testbit (Py.byte_val flags) 0).
    + split; [reflexivity|]. intros lo hi tl ->.
      cbn [PolarDevice.hr PolarDevice.set_hr].
      change (Py.slice (flags :: lo :: hi :: tl) 1 3) with [lo; hi].
      cbn [Py.int_from_bytes_little]. lia.
    + destruct rest as [|b rest]; reflexivity.
  - intros e. unfold outcome_of.
    destruct data as [|flags rest]; [reflexivity|].
    rewrite hr_notified_cons, <- (negb_involutive (Z.testbit _ 0)),
      <- land_1_testbit.
    unfold PolarDevice.decode, getitem. cbn [nth_error Z.to_nat].
    cbn -[Py.byte_val Z.land Py.slice Py.int_from_bytes_little].
    destruct (Z.land (Py.byte_val flags) 1 =? 0); cbn [negb].
    + destruct rest as [|b rest]; cbn.
      * reflexivity.
      * discriminate.
    + cbn. discriminate.
Qed.

(** C4 (the code at the failing input): a 16-bit frame cut short is not
    treated as a decode error.  With bit 0 of the flags byte set and no value
    byte, the slice [data[1:3]] is empty, nothing is raised and [hr] is
    overwritten with 0; with one value byte [hr] takes that byte.  The 8-bit
    path keeps [hr] when its value byte is missing. *)
Theorem hr_wide_frame_cut_short_overwrites :
  let s := PolarDevice.mk "C0:FF:EE" true 72 90 true 0 0 in
  Py.slice [x01] 1 3 = [] /\
  outcome_of (PolarDevice.decode [x01]) s = Ok tt /\
  PolarDevice.hr (PolarDevice.notified s [x01]) = 0 /\
  PolarDevice.hr (PolarDevice.notified s [x01; x3c]) = 60 /\
  outcome_of (PolarDevice.decode [x00]) s = Raise IndexError /\
  PolarDevice.notified s [x00] = s.
Proof.
  cbv zeta. repeat split.
Qed.

(** ** Equations of the method monad *)

Lemma bind_get {S B} (k : S -> M S B) (s : S) : bind get k s = k s s.
Proof. unfold bind, get. destruct (k s s) as [[r s2] t2]. reflexivity. Qed.

Lemma bind_ret {S A B} (a : A) (k : A -> M S B) (s : S) :
  bind (ret a) k s = k a s.
Proof. unfold bind, ret. destruct (k a s) as [[r s2] t2]. reflexivity. Qed.

Lemma bind_modify {S B} (f : S -> S) (k : unit -> M S B) (s : S) :
  bind (modify f) k s = k tt (f s).
Proof. unfold bind, modify. destruct (k tt (f s)) as [[r s2] t2]. reflexivity. Qed.

Lemma bind_emit {S B} (ev : event) (k : unit -> M S B) (s : S) :
  bind (emit ev) k s
  = (outcome_of (k tt) s, state_after (k tt) s, ev :: trace_of (k tt) s).
Proof.
  unfold bind, emit, outcome_of, state_after, trace_of.
  destruct (k tt s) as [[r s2] t2]. reflexivity.
Qed.

Lemma bind_await_ok {S A B} (ev : event) (a : A) (k : A -> M S B) (s : S) :
  bind (await ev (Ok a)) k s
  = (outcome_of (k a) s, state_after (k a) s, ev :: trace_of (k a) s).
Proof.
  unfold bind, await, outcome_of, state_after, trace_of.
  destruct (k a s) as [[r s2] t2]. reflexivity.
Qed.

Lemma bind_await_raise {S A B} (ev : event) (x : exn) (k : A -> M S B) (s : S) :
  bind (await ev (Raise x)) k s = (Raise x, s, [ev]).
Proof. reflexivity. Qed.

(** ** The strap session: the reconnect step and the battery read *)

Arguments PolarDevice.battery_due : simpl never.
Arguments PolarDevice.address_set : simpl never.

Lemma update_when_disconnected (e : PolarDevice.env) (s : PolarDevice.t) :
  reconciled e s = false ->
  PolarDevice.update e s =
  (PolarDevice.connect e ;;
   s2 <- get ;;
   if PolarDevice.connected s2 then PolarDevice.setup e else ret tt)
    (reconcile e s).
Proof.
  unfold reconciled, reconcile, PolarDevice.update.
  intros H. rewrite bind_get.
  destruct (PolarDevice.client s).
  - rewrite bind_modify, bind_get. cbn [PolarDevice.connected PolarDevice.set_connected].
    rewrite H. reflexivity.
  - rewrite bind_ret, bind_get, H. reflexivity.
Qed.

Lemma update_when_connected (e : PolarDevice.env) (s : PolarDevice.t) :
  reconciled e s = true ->
  PolarDevice.update e s =
  if PolarDevice.battery_due e s then
    try_except (PolarDevice._read_battery e) is_Exception
      (fun _ => emit (EvLogError Strap)) (reconcile e s)
  else (Ok tt, reconcile e s, []).
Proof.
  unfold reconciled, reconcile, PolarDevice.update.
  intros H. rewrite bind_get.
  destruct (PolarDevice.client s).
  - rewrite bind_modify, bind_get. cbn [PolarDevice.connected PolarDevice.set_connected].
    rewrite H. cbn [negb].
    change (PolarDevice.battery_due e (PolarDevice.set_connected true s))
      with (PolarDevice.battery_due e s).
    destruct (PolarDevice.battery_due e s); reflexivity.
  - rewrite bind_ret, bind_get, H. cbn [negb].
    destruct (PolarDevice.battery_due e s); reflexivity.
Qed.

Lemma read_battery_run (e : PolarDevice.env) (s : PolarDevice.t) :
  PolarDevice._read_battery e s =
  match PolarDevice.read_res e with
  | Ok (b :: _) =>
      (Ok tt,
       PolarDevice.set_last_battery_read (PolarDevice.t_done e)
         (PolarDevice.set_battery (Py.byte_val b) s),
       [EvReadBattery])
  | Ok [] => (Raise IndexError, s, [EvReadBattery])
  | Raise x => (Raise x, s, [EvReadBattery])
  end.
Proof.
  unfold PolarDevice._read_battery.
  destruct (PolarDevice.read_res e) as [[|b rest]|x]; reflexivity.
Qed.

Lemma connect_run (e : PolarDevice.env) (s : PolarDevice.t) :
  PolarDevice.address_set s = true ->
  PolarDevice.connect e s =
  match PolarDevice.connect_res e with
  | Ok _ =>
      (Ok tt,
       (if PolarDevice.is_connected e
        then PolarDevice.set_connection_start (PolarDevice.t_connect e)
        else fun s => s)
         (PolarDevice.set_connected (PolarDevice.is_connected e)
            (PolarDevice.set_client true s)),
       [EvConnect Strap; EvSleep 1])
  | Raise x =>
      if is_Exception x
      then (Ok tt, PolarDevice.set_connected false (PolarDevice.set_client true s),
            [EvConnect Strap; EvLogError Strap])
      else (Raise x, PolarDevice.set_client true s, [EvConnect Strap])
  end.
Proof.
  intros Ha. unfold PolarDevice.connect. rewrite bind_get, Ha. cbn [negb].
  unfold try_except. rewrite bind_modify.
  destruct (PolarDevice.connect_res e) as [[]|x].
  - destruct (PolarDevice.is_connected e); reflexivity.
  - destruct x; reflexivity.
Qed.

Lemma connect_without_address (e : PolarDevice.env) (s : PolarDevice.t) :
  PolarDevice.address_set s = false -> PolarDevice.connect e s = (Ok tt, s, []).
Proof.
  intros Ha. unfold PolarDevice.connect. rewrite bind_get, Ha. reflexivity.
Qed.

Lemma setup_run (e : PolarDevice.env) (s : PolarDevice.t) :
  PolarDevice.setup e s =
  if PolarDevice.connected s then
    match PolarDevice.start_notify_res e with
    | Ok _ => (Ok tt, s, [EvStartNotify Strap])
    | Raise x =>
        if is_Exception x
        then (Ok tt, PolarDevice.set_connected false s,
              [EvStartNotify Strap; EvLogError Strap])
        else (Raise x, s, [EvStartNotify Strap])
    end
  else (Ok tt, s, []).
Proof.
  unfold PolarDevice.setup. rewrite bind_get.
  destruct (PolarDevice.connected s); [|reflexivity]. cbn [negb].
  unfold try_except, await.
  destruct (PolarDevice.start_notify_res e) as [[]|x]; [reflexivity|].
  destruct x; reflexivity.
Qed.

Lemma reconcile_address_set (e : PolarDevice.env) (s : PolarDevice.t) :
  PolarDevice.address_set (reconcile e s) = PolarDevice.address_set s.
Proof. unfold reconcile. destruct (PolarDevice.client s); reflexivity. Qed.

Lemma reconcile_keeps_battery (e : PolarDevice.env) (s : PolarDevice.t) :
  PolarDevice.battery (reconcile e s) = PolarDevice.battery s /\
  PolarDevice._last_battery_read (reconcile e s) = PolarDevice._last_battery_read s.
Proof. unfold reconcile. destruct (PolarDevice.client s); split; reflexivity. Qed.

(** C7: when [update] finds the session Disconnected (once reconciled with
    the transport), and the connect and the subscription both succeed, the
    session is Connected at the end of that same call; the call performs the
    connect, the settle delay and the subscription and nothing else: no
    battery read is attempted, and [battery] and the time of the last read are
    untouched. *)
Theorem strap_reconnect_tick (e : PolarDevice.env) (s : PolarDevice.t)
    (Hdisc : reconciled e s = false)
    (Haddr : PolarDevice.address_set s = true)
    (Hconn : PolarDevice.connect_res e = Ok tt)
    (Hlink : PolarDevice.is_connected e = true)
    (Hsub : PolarDevice.start_notify_res e = Ok tt) :
  outcome_of (PolarDevice.update e) s = Ok tt /\
  PolarDevice.connected (state_after (PolarDevice.update e) s) = true /\
  trace_of (PolarDevice.update e) s
    = [EvConnect Strap; EvSleep 1; EvStartNotify Strap] /\
  ~ In EvReadBattery (trace_of (PolarDevice.update e) s) /\
  PolarDevice.battery (state_after (PolarDevice.update e) s)
    = PolarDevice.battery s /\
  PolarDevice._last_battery_read (state_after (PolarDevice.update e) s)
    = PolarDevice._last_battery_read s.
Proof.
  destruct (reconcile_keeps_battery e s) as [Hb Hl].
  assert (PolarDevice.update e s =
          (Ok tt,
           PolarDevice.set_connection_start (PolarDevice.t_connect e)
             (PolarDevice.set_connected true
                (PolarDevice.set_client true (reconcile e s))),
           [EvConnect Strap; EvSleep 1; EvStartNotify Strap])) as E.
  { rewrite (update_when_disconnected e s Hdisc).
    unfold bind at 1.
    rewrite connect_run by (now rewrite reconcile_address_set).
    rewrite Hconn, Hlink, bind_get.
    cbn [PolarDevice.connected PolarDevice.set_connection_start
         PolarDevice.set_connected].
    rewrite setup_run, Hsub. reflexivity. }
  unfold outcome_of, state_after, trace_of. rewrite E.
  cbn [PolarDevice.connected PolarDevice.set_connection_start
       PolarDevice.set_connected PolarDevice.set_client
       PolarDevice.battery PolarDevice._last_battery_read fst snd].
  split; [reflexivity|]. split; [reflexivity|]. split; [reflexivity|].
  split; [|split; assumption].
  intros [H|[H|[H|[]]]]; discriminate.
Qed.

Lemma strap_reconnect_tick_witness :
  let e := PolarDevice.mk_env false (Ok tt) true 1000 (Ok tt) 1001
             (Ok [x5a]) 1002 (Ok tt) (Ok tt) in
  let s := PolarDevice.init "C0:FF:EE" in
  PolarDevice.connected s = false /\
  PolarDevice.connected (state_after (PolarDevice.update e) s) = true /\
  ~ In EvReadBattery (trace_of (PolarDevice.update e) s).
Proof.
  intros e s.
  pose proof (strap_reconnect_tick e s eq_refl eq_refl eq_refl eq_refl eq_refl)
    as (_ & Hc & _ & Hn & _).
  split; [reflexivity|]. split; [exact Hc|exact Hn].
Defined.

(** Whatever the outcome of the reconnect attempt, a tick that finds the
    session Disconnected attempts no battery read. *)
Lemma disconnected_tick_reads_no_battery (e : PolarDevice.env) (s : PolarDevice.t) :
  reconciled e s = false ->
  battery_read_attempted e s = false /\
  PolarDevice.battery (state_after (PolarDevice.update e) s)
    = PolarDevice.battery s /\
  PolarDevice._last_battery_read (state_after (PolarDevice.update e) s)
    = PolarDevice._last_battery_read s.
Proof.
  intros Hdisc.
  destruct (reconcile_keeps_battery e s) as [Hb Hl].
  unfold battery_read_attempted, state_after.
  rewrite (update_when_disconnected e s Hdisc).
  set (s0 := reconcile e s) in *.
  match goal with |- context [?m s0] => set (r := m s0) end.
  assert (existsb (fun ev => match ev with EvReadBattery => true | _ => false end)
            (snd r) = false /\
          PolarDevice.battery (snd (fst r)) = PolarDevice.battery s0 /\
          PolarDevice._last_battery_read (snd (fst r))
            = PolarDevice._last_battery_read s0) as (H1 & H2 & H3).
  { assert (r = (PolarDevice.connect e ;;
                 s2 <- get ;;
                 if PolarDevice.connected s2 then PolarDevice.setup e else ret tt)
                  s0) as Er by reflexivity.
    clearbody r. unfold bind at 1 in Er.
    destruct (PolarDevice.address_set s0) eqn:Ha.
    - rewrite (connect_run e _ Ha) in Er.
      destruct (PolarDevice.connect_res e) as [[]|x];
        [destruct (PolarDevice.is_connected e)|destruct (is_Exception x)];
        rewrite ?bind_get in Er;
        cbn [PolarDevice.connected PolarDevice.set_connection_start
             PolarDevice.set_connected] in Er;
        rewrite ?setup_run in Er;
        cbn [PolarDevice.connected PolarDevice.set_connection_start
             PolarDevice.set_connected] in Er;
        try (destruct (PolarDevice.start_notify_res e) as [[]|y];
             [|destruct (is_Exception y)]);
        subst r; cbn; auto.
    - rewrite (connect_without_address e _ Ha), bind_get in Er.
      destruct (PolarDevice.connected s0) eqn:Hc.
      + rewrite setup_run, Hc in Er.
        destruct (PolarDevice.start_notify_res e) as [[]|y];
          [|destruct (is_Exception y)]; subst r; cbn; auto.
      + subst r; cbn; auto. }
  rewrite H1, H2, H3. auto.
Qed.

Lemma battery_due_spec (e : PolarDevice.env) (s : PolarDevice.t) :
  PolarDevice.battery_due e s = true <->
  (60 < PolarDevice.t_check e - PolarDevice._last_battery_read s)%Q.
Proof.
  unfold PolarDevice.battery_due. rewrite negb_true_iff.
  split.
  - intros H. apply Qnot_le_lt. intros Hle.
    apply Qle_bool_iff in Hle. congruence.
  - intros H. destruct (Qle_bool _ 60) eqn:E; [|reflexivity].
    apply Qle_bool_iff in E. apply Qle_not_lt in E. contradiction.
Qed.

(** What a tick does when it finds the session Connected. *)
Lemma connected_tick (e : PolarDevice.env) (s : PolarDevice.t) :
  reconciled e s = true ->
  PolarDevice.update e s =
  if PolarDevice.battery_due e s then
    match PolarDevice.read_res e with
    | Ok (b :: _) =>
        (Ok tt,
         PolarDevice.set_last_battery_read (PolarDevice.t_done e)
           (PolarDevice.set_battery (Py.byte_val b) (reconcile e s)),
         [EvReadBattery])
    | Ok [] => (Ok tt, reconcile e s, [EvReadBattery; EvLogError Strap])
    | Raise x =>
        if is_Exception x
        then (Ok tt, reconcile e s, [EvReadBattery; EvLogError Strap])
        else (Raise x, reconcile e s, [EvReadBattery])
    end
  else (Ok tt, reconcile e s, []).
Proof.
  intros H. rewrite (update_when_connected e s H).
  destruct (PolarDevice.battery_due e s); [|reflexivity].
  unfold try_except. rewrite read_battery_run.
  destruct (PolarDevice.read_res e) as [[|b rest]|x]; reflexivity.
Qed.

Lemma battery_read_attempted_iff (e : PolarDevice.env) (s : PolarDevice.t) :
  battery_read_attempted e s
  = reconciled e s && PolarDevice.battery_due e s.
Proof.
  destruct (reconciled e s) eqn:Hr.
  - unfold battery_read_attempted.
    rewrite (connected_tick e s Hr).
    destruct (PolarDevice.battery_due e s); [|reflexivity].
    destruct (PolarDevice.read_res e) as [[|b rest]|x]; try reflexivity.
    destruct (is_Exception x); reflexivity.
  - apply (disconnected_tick_reads_no_battery e s Hr).
Qed.

Lemma last_battery_read_after_tick (e : PolarDevice.env) (s : PolarDevice.t) :
  PolarDevice._last_battery_read (state_after (PolarDevice.update e) s)
  = if battery_read_succeeded e s
    then PolarDevice.t_done e
    else PolarDevice._last_battery_read s.
Proof.
  unfold battery_read_succeeded.
  rewrite battery_read_attempted_iff.
  destruct (reconciled e s) eqn:Hr.
  - unfold state_after. rewrite (connected_tick e s Hr).
    destruct (reconcile_keeps_battery e s) as [_ Hl].
    destruct (PolarDevice.battery_due e s); cbn [andb]; [|exact Hl].
    destruct (PolarDevice.read_res e) as [[|b rest]|x]; cbn [fst snd];
      try exact Hl; try reflexivity.
    destruct (is_Exception x); exact Hl.
  - cbn [andb]. apply (disconnected_tick_reads_no_battery e s Hr).
Qed.

(** Successive successful reads of a run are more than 60 apart, and all
    come more than 60 after the last read stored before the run. *)
Lemma run_reads_spaced (es : list PolarDevice.env) :
  Forall (fun e => (PolarDevice.t_check e <= PolarDevice.t_done e)%Q) es ->
  forall s,
    StronglySorted (fun t1 t2 => (t1 + 60 < t2)%Q) (snd (strap_run es s)) /\
    Forall (fun t => (PolarDevice._last_battery_read s + 60 < t)%Q)
           (snd (strap_run es s)).
Proof.
  induction 1 as [|e es Hclock _ IH]; intros s.
  - cbn. split; constructor.
  - cbn [strap_run].
    pose proof (last_battery_read_after_tick e s) as Hlast.
    unfold state_after in Hlast.
    destruct (IH (snd (fst (PolarDevice.update e s)))) as [Hsort Hall].
    destruct (strap_run es (snd (fst (PolarDevice.update e s))))
      as [s'' reads]. cbn [snd] in *.
    rewrite Hlast in Hall.
    destruct (battery_read_succeeded e s) eqn:Hs.
    + assert (60 < PolarDevice.t_check e - PolarDevice._last_battery_read s)%Q
        as Hdue.
      { apply battery_due_spec.
        unfold battery_read_succeeded in Hs.
        rewrite battery_read_attempted_iff in Hs.
        apply andb_prop in Hs as [Hs _]. now apply andb_prop in Hs as [_ Hs]. }
      split.
      * constructor; assumption.
      * constructor; [lra|].
        eapply Forall_impl; [|exact Hall]. cbn beta. intros t Ht. lra.
    + split; assumption.
Qed.

(** C8 (as amended): a battery read is attempted only when at least 60 time
    units have elapsed since the last stored read (the code asks for more than
    60); across any sequence of ticks whose clock does not run backwards
    between the check and the store of a read,
    the reads that succeed are pairwise more than 60 apart; a successful read
    stores the first byte read in [battery] and the clock in
    [_last_battery_read]; a failed read is logged and swallowed, [battery] and
    [_last_battery_read] keeping their values. *)
Theorem battery_read_throttle (es : list PolarDevice.env) (s : PolarDevice.t)
    (Hclock :
       Forall (fun e => (PolarDevice.t_check e <= PolarDevice.t_done e)%Q) es) :
  (forall e s0,
      battery_read_attempted e s0 = true ->
      (60 <= PolarDevice.t_check e - PolarDevice._last_battery_read s0)%Q)
  /\ StronglySorted (fun t1 t2 => (t1 + 60 < t2)%Q) (snd (strap_run es s))
  /\ (forall e s0,
      battery_read_succeeded e s0 = true ->
      exists b rest,
        PolarDevice.read_res e = Ok (b :: rest) /\
        outcome_of (PolarDevice.update e) s0 = Ok tt /\
        PolarDevice.battery (state_after (PolarDevice.update e) s0)
          = Py.byte_val b /\
        PolarDevice._last_battery_read (state_after (PolarDevice.update e) s0)
          = PolarDevice.t_done e)
  /\ (forall e s0,
      battery_read_attempted e s0 = true ->
      (PolarDevice.read_res e = Ok []
       \/ exists x, PolarDevice.read_res e = Raise x /\ is_Exception x = true) ->
      outcome_of (PolarDevice.update e) s0 = Ok tt /\
      In (EvLogError Strap) (trace_of (PolarDevice.update e) s0) /\
      PolarDevice.battery (state_after (PolarDevice.update e) s0)
        = PolarDevice.battery s0 /\
      PolarDevice._last_battery_read (state_after (PolarDevice.update e) s0)
        = PolarDevice._last_battery_read s0).
Proof.
  split; [|split; [|split]].
  - intros e s0 Ha. rewrite battery_read_attempted_iff in Ha.
    apply andb_prop in Ha as [_ Hd]. apply battery_due_spec in Hd. lra.
  - apply (run_reads_spaced es Hclock s).
  - intros e s0 Hs. unfold battery_read_succeeded in Hs.
    rewrite battery_read_attempted_iff in Hs.
    apply andb_prop in Hs as [Ha Hr]. apply andb_prop in Ha as [Hc Hd].
    unfold outcome_of, state_after. rewrite (connected_tick e s0 Hc), Hd.
    destruct (PolarDevice.read_res e) as [[|b rest]|x]; try discriminate.
    exists b, rest. repeat split.
  - intros e s0 Ha Hfail. rewrite battery_read_attempted_iff in Ha.
    apply andb_prop in Ha as [Hc Hd].
    destruct (reconcile_keeps_battery e s0) as [Hb Hl].
    unfold outcome_of, state_after, trace_of.
    rewrite (connected_tick e s0 Hc), Hd.
    destruct Hfail as [->|[x [-> ->]]]; cbn [fst snd];
      (split; [reflexivity|split; [right; left; reflexivity|split; assumption]]).
Qed.

(** Four ticks of a connected session: reads succeed at 1000 and at 1062,
    the ticks at 1030 and 1060 attempt none. *)
Lemma battery_read_throttle_witness :
  let at_time t := PolarDevice.mk_env true (Ok tt) true t (Ok tt) t
                     (Ok [x5a]) t (Ok tt) (Ok tt) in
  let es := [at_time 1000; at_time 1030; at_time 1060; at_time 1062]%Q in
  let s := PolarDevice.mk "C0:FF:EE" true 0 0 true 0 0 in
  snd (strap_run es s) = [1000; 1062]%Q /\
  StronglySorted (fun t1 t2 => (t1 + 60 < t2)%Q) (snd (strap_run es s)).
Proof.
  intros at_time es s.
  split; [reflexivity|].
  apply (battery_read_throttle es s).
  repeat constructor; unfold Qle; cbn; lia.
Defined.

(** C8 (as stated) fails on a clock that runs backwards: [time.time()] is
    the wall clock.  The second read is checked at 1061 and stored at 1001, so
    the third tick, at 1062, reads again: three reads succeed, the last two
    one time unit apart. *)
Lemma battery_reads_bunch_on_backward_clock :
  let tick check done := PolarDevice.mk_env true (Ok tt) true check (Ok tt)
                           check (Ok [x5a]) done (Ok tt) (Ok tt) in
  let es := [tick 1000 1000; tick 1061 1001; tick 1062 1062]%Q in
  let s := PolarDevice.mk "C0:FF:EE" true 0 0 true 0 0 in
  let s1 := state_after (PolarDevice.update (tick 1000 1000)%Q) s in
  let s2 := state_after (PolarDevice.update (tick 1061 1001)%Q) s1 in
  battery_read_succeeded (tick 1061 1001)%Q s1 = true /\
  battery_read_succeeded (tick 1062 1062)%Q s2 = true /\
  snd (strap_run es s) = [1000; 1001; 1062]%Q /\
  ~ StronglySorted (fun t1 t2 => (t1 + 60 < t2)%Q) (snd (strap_run es s)).
Proof.
  cbv zeta. split; [reflexivity|]. split; [reflexivity|].
  split; [reflexivity|].
  intros H. change (StronglySorted (fun t1 t2 => (t1 + 60 < t2)%Q)
                      [1000; 1001; 1062]%Q) in H.
  inversion H as [|a l _ Hall]; subst.
  inversion Hall as [|b l' Hlt _]; subst.
  vm_compute in Hlt. discriminate.
Qed.

(** ** Closing the sessions *)

Lemma strap_close_run (e : PolarDevice.env) (s : PolarDevice.t) :
  PolarDevice.close e s =
  if PolarDevice.client s && PolarDevice.connected s then
    match PolarDevice.stop_notify_res e with
    | Ok _ =>
        match PolarDevice.disconnect_res e with
        | Ok _ => (Ok tt, s, [EvStopNotify Strap; EvDisconnect Strap])
        | Raise x =>
            if is_Exception x
            then (Ok tt, s, [EvStopNotify Strap; EvDisconnect Strap])
            else (Raise x, s, [EvStopNotify Strap; EvDisconnect Strap])
        end
    | Raise x =>
        if is_Exception x
        then (Ok tt, s, [EvStopNotify Strap])
        else (Raise x, s, [EvStopNotify Strap])
    end
  else (Ok tt, s, []).
Proof.
  unfold PolarDevice.close. rewrite bind_get.
  destruct (PolarDevice.client s && PolarDevice.connected s); [|reflexivity].
  unfold try_except, bind, await.
  destruct (PolarDevice.stop_notify_res e) as [[]|x].
  - destruct (PolarDevice.disconnect_res e) as [[]|y]; [reflexivity|].
    destruct (is_Exception y); reflexivity.
  - destruct (is_Exception x); reflexivity.
Qed.

Lemma console_close_run (e : IFitDevice.env) (s : IFitDevice.t) :
  IFitDevice.close e s =
  if IFitDevice.client s && IFitDevice.connected s then
    match IFitDevice.stop_notify_res e with
    | Raise x =>
        if is_Exception x
        then (IFitDevice.disconnect_res e, s,
              [EvStopNotify Console; EvDisconnect Console])
        else (Raise x, s, [EvStopNotify Console])
    | Ok _ =>
        (IFitDevice.disconnect_res e, s,
         [EvStopNotify Console; EvDisconnect Console])
    end
  else (Ok tt, s, []).
Proof.
  unfold IFitDevice.close. rewrite bind_get.
  destruct (IFitDevice.client s && IFitDevice.connected s); [|reflexivity].
  unfold try_except, bind, await.
  destruct (IFitDevice.stop_notify_res e) as [[]|x]; [reflexivity|].
  destruct (is_Exception x); reflexivity.
Qed.

(** The strap's [close] swallows every error of the transport. *)
Lemma strap_close_swallows_errors (e : PolarDevice.env) (s : PolarDevice.t) :
  (forall x, PolarDevice.stop_notify_res e = Raise x -> is_Exception x = true) ->
  (forall x, PolarDevice.disconnect_res e = Raise x -> is_Exception x = true) ->
  outcome_of (PolarDevice.close e) s = Ok tt.
Proof.
  intros H1 H2. unfold outcome_of. rewrite strap_close_run.
  destruct (PolarDevice.client s && PolarDevice.connected s); [|reflexivity].
  destruct (PolarDevice.stop_notify_res e) as [[]|x].
  - destruct (PolarDevice.disconnect_res e) as [[]|y]; [reflexivity|].
    now rewrite (H2 y eq_refl).
  - now rewrite (H1 x eq_refl).
Qed.

(** Once the unsubscribe has failed the strap's [close] never reaches the
    disconnect. *)
Lemma strap_close_after_failed_unsubscribe
    (e : PolarDevice.env) (s : PolarDevice.t) (x : exn) :
  PolarDevice.stop_notify_res e = Raise x ->
  ~ In (EvDisconnect Strap) (trace_of (PolarDevice.close e) s).
Proof.
  intros H. unfold trace_of. rewrite strap_close_run, H.
  destruct (PolarDevice.client s && PolarDevice.connected s);
    [destruct (is_Exception x)|]; cbn; intuition discriminate.
Qed.

(** The console's [close] does attempt the disconnect after a failed
    unsubscribe. *)
Lemma console_close_after_failed_unsubscribe
    (e : IFitDevice.env) (s : IFitDevice.t) (x : exn) :
  IFitDevice.client s = true -> IFitDevice.connected s = true ->
  IFitDevice.stop_notify_res e = Raise x -> is_Exception x = true ->
  In (EvDisconnect Console) (trace_of (IFitDevice.close e) s).
Proof.
  intros Hc Hn Hs Hx. unfold trace_of.
  rewrite console_close_run, Hc, Hn, Hs, Hx. cbn. auto.
Qed.

(** C9 (the code at the failing input): on a connected strap session whose
    unsubscribe fails, [close] returns normally after the unsubscribe alone:
    the disconnect is not attempted. *)
Theorem strap_close_skips_disconnect :
  let s := PolarDevice.mk "C0:FF:EE" true 72 90 true 1000 900 in
  let e := PolarDevice.mk_env true (Ok tt) true 0 (Ok tt) 0 (Ok [])
             0 (Raise BleakError) (Ok tt) in
  PolarDevice.close e s = (Ok tt, s, [EvStopNotify Strap]) /\
  ~ In (EvDisconnect Strap) (trace_of (PolarDevice.close e) s).
Proof.
  cbv zeta. split; [reflexivity|].
  now apply (strap_close_after_failed_unsubscribe _ _ BleakError).
Qed.

(** ** Connecting the console *)

Lemma console_connect_run (e : IFitDevice.env) (s : IFitDevice.t) :
  IFitDevice.connect e s =
  match IFitDevice.connect_res e with
  | Ok _ =>
      (Ok tt,
       IFitDevice.set_connected (IFitDevice.is_connected e)
         (IFitDevice.set_client true s),
       [EvConnect Console])
  | Raise x => (Raise x, IFitDevice.set_client true s, [EvConnect Console])
  end.
Proof.
  unfold IFitDevice.connect. rewrite bind_modify.
  destruct (IFitDevice.connect_res e) as [[]|x]; reflexivity.
Qed.

(** When the transport's connect returns, the session is Connected exactly
    when the transport reports the link up. *)
Lemma console_connect_link_state (e : IFitDevice.env) (s : IFitDevice.t) :
  IFitDevice.connect_res e = Ok tt ->
  IFitDevice.connected (state_after (IFitDevice.connect e) s)
  = IFitDevice.is_connected e.
Proof.
  intros H. unfold state_after. rewrite console_connect_run, H. reflexivity.
Qed.

(** Whatever the transport raises reaches the caller of the console's
    [connect]; the connection state is not touched. *)
Lemma console_connect_raises (e : IFitDevice.env) (s : IFitDevice.t) (x : exn) :
  IFitDevice.connect_res e = Raise x ->
  outcome_of (IFitDevice.connect e) s = Raise x /\
  IFitDevice.connected (state_after (IFitDevice.connect e) s)
  = IFitDevice.connected s.
Proof.
  intros H. unfold outcome_of, state_after.
  rewrite console_connect_run, H. split; reflexivity.
Qed.

(** The strap's [connect] returns normally on every error of the transport
    and leaves the session Disconnected. *)
Lemma strap_connect_swallows_errors
    (e : PolarDevice.env) (s : PolarDevice.t) (x : exn) :
  PolarDevice.connect_res e = Raise x -> is_Exception x = true ->
  outcome_of (PolarDevice.connect e) s = Ok tt /\
  (PolarDevice.address_set s = true ->
   PolarDevice.connected (state_after (PolarDevice.connect e) s) = false).
Proof.
  intros H Hx. unfold outcome_of, state_after.
  destruct (PolarDevice.address_set s) eqn:Ha.
  - rewrite (connect_run e s Ha), H, Hx. split; reflexivity.
  - rewrite (connect_without_address e s Ha). split; [reflexivity|discriminate].
Qed.

(** C5 (the code at the failing input): when the transport fails to connect,
    the console's [connect] raises to its caller; the same answer of the
    transport is swallowed by the strap's [connect]. *)
Theorem console_connect_failure_reaches_caller :
  let s := IFitDevice.init "treadmill" in
  let e := IFitDevice.mk_env (Raise BleakError) false (Ok tt)
             (fun _ => Ok tt) (Ok tt) (Ok tt) in
  let e' := PolarDevice.mk_env false (Raise BleakError) false 0 (Ok tt) 0
              (Ok []) 0 (Ok tt) (Ok tt) in
  IFitDevice.connect e s
    = (Raise BleakError, IFitDevice.set_client true s, [EvConnect Console]) /\
  outcome_of (PolarDevice.connect e') (PolarDevice.init "C0:FF:EE") = Ok tt.
Proof.
  cbv zeta. split; reflexivity.
Qed.

(** ** The cleanup block of [main] *)

Lemma bind_run {S A B} (m : M S A) (k : A -> M S B) (s : S) :
  bind m k s =
  match outcome_of m s with
  | Ok a =>
      (outcome_of (k a) (state_after m s),
       state_after (k a) (state_after m s),
       trace_of m s ++ trace_of (k a) (state_after m s))
  | Raise e => (Raise e, state_after m s, trace_of m s)
  end.
Proof.
  unfold bind, outcome_of, state_after, trace_of.
  destruct (m s) as [[[a|e] s1] t1]; cbn [fst snd]; [|reflexivity].
  destruct (k a s1) as [[r s2] t2]. reflexivity.
Qed.

Lemma on_ifit_run (name : string) (m : M IFitDevice.t unit) (ss : Main.sessions) :
  Main.on_ifit name m ss =
  match Main.ifit ss with
  | None => (Ok tt, ss, [])
  | Some d =>
      (outcome_of m d, Main.mk (Some (state_after m d)) (Main.polar ss),
       EvCall Console name :: trace_of m d)
  end.
Proof.
  unfold Main.on_ifit, outcome_of, state_after, trace_of.
  destruct (Main.ifit ss) as [d|]; [|reflexivity].
  destruct (m d) as [[r d'] tr]. reflexivity.
Qed.

Lemma on_polar_run (name : string) (m : M PolarDevice.t unit) (ss : Main.sessions) :
  Main.on_polar name m ss =
  match Main.polar ss with
  | None => (Ok tt, ss, [])
  | Some d =>
      (outcome_of m d, Main.mk (Main.ifit ss) (Some (state_after m d)),
       EvCall Strap name :: trace_of m d)
  end.
Proof.
  unfold Main.on_polar, outcome_of, state_after, trace_of.
  destruct (Main.polar ss) as [d|]; [|reflexivity].
  destruct (m d) as [[r d'] tr]. reflexivity.
Qed.

Lemma close_calls_app (d : device) (t1 t2 : trace) :
  Main.close_calls d (t1 ++ t2)
  = (Main.close_calls d t1 + Main.close_calls d t2)%nat.
Proof.
  unfold Main.close_calls. now rewrite filter_app, length_app.
Qed.

Lemma close_calls_cons (d : device) (ev : event) (t : trace) :
  Main.close_calls d (ev :: t)
  = ((if Main.is_close d ev then 1 else 0) + Main.close_calls d t)%nat.
Proof.
  unfold Main.close_calls. cbn [filter].
  destruct (Main.is_close d ev); reflexivity.
Qed.

(** The [close] methods call no method of a session themselves. *)
Lemma console_close_calls_nothing (d : device) e s :
  Main.close_calls d (trace_of (IFitDevice.close e) s) = 0%nat.
Proof.
  unfold trace_of. rewrite console_close_run.
  destruct (IFitDevice.client s && IFitDevice.connected s); [|reflexivity].
  destruct (IFitDevice.stop_notify_res e) as [[]|x];
    [|destruct (is_Exception x)]; destruct d; reflexivity.
Qed.

Lemma strap_close_calls_nothing (d : device) e s :
  Main.close_calls d (trace_of (PolarDevice.close e) s) = 0%nat.
Proof.
  unfold trace_of. rewrite strap_close_run.
  destruct (PolarDevice.client s && PolarDevice.connected s); [|reflexivity].
  destruct (PolarDevice.stop_notify_res e) as [[]|x].
  - destruct (PolarDevice.disconnect_res e) as [[]|y];
      [|destruct (is_Exception y)]; destruct d; reflexivity.
  - destruct (is_Exception x); destruct d; reflexivity.
Qed.

Lemma cleanup_trace (ci : IFitDevice.env) (cp : PolarDevice.env)
    (ss : Main.sessions) :
  outcome_of (Main.on_ifit "close" (IFitDevice.close ci)) ss = Ok tt ->
  trace_of (Main.cleanup ci cp) ss
  = trace_of (Main.on_ifit "close" (IFitDevice.close ci)) ss
    ++ trace_of (Main.on_polar "close" (PolarDevice.close cp))
         (state_after (Main.on_ifit "close" (IFitDevice.close ci)) ss).
Proof.
  intros Hok. unfold Main.cleanup. unfold trace_of at 1.
  rewrite bind_run, Hok. reflexivity.
Qed.

(** When the console's [close] does not raise, the cleanup block enters
    [close] once on every session that was constructed. *)
Lemma cleanup_closes_each_once
    (ci : IFitDevice.env) (cp : PolarDevice.env) (ss : Main.sessions) :
  outcome_of (Main.on_ifit "close" (IFitDevice.close ci)) ss = Ok tt ->
  Main.close_calls Console (trace_of (Main.cleanup ci cp) ss)
    = option_count (Main.ifit ss) /\
  Main.close_calls Strap (trace_of (Main.cleanup ci cp) ss)
    = option_count (Main.polar ss).
Proof.
  intros Hok. rewrite (cleanup_trace ci cp ss Hok), !close_calls_app.
  unfold trace_of, state_after. rewrite on_polar_run, on_ifit_run.
  destruct ss as [[i|] [p|]]; cbn [Main.ifit Main.polar fst snd option_count].
  all: rewrite ?close_calls_cons,
      ?(console_close_calls_nothing Console), ?(console_close_calls_nothing Strap),
      ?(strap_close_calls_nothing Console), ?(strap_close_calls_nothing Strap);
    split; reflexivity.
Qed.

(** When the console's [close] raises, the strap's [close] is not entered. *)
Lemma cleanup_stops_at_console_failure
    (ci : IFitDevice.env) (cp : PolarDevice.env) (ss : Main.sessions) (x : exn) :
  outcome_of (Main.on_ifit "close" (IFitDevice.close ci)) ss = Raise x ->
  outcome_of (Main.cleanup ci cp) ss = Raise x /\
  Main.close_calls Strap (trace_of (Main.cleanup ci cp) ss) = 0%nat.
Proof.
  intros Hraise.
  assert (Main.cleanup ci cp ss
          = (Raise x, state_after (Main.on_ifit "close" (IFitDevice.close ci)) ss,
             trace_of (Main.on_ifit "close" (IFitDevice.close ci)) ss)) as E.
  { unfold Main.cleanup. rewrite bind_run, Hraise. reflexivity. }
  unfold outcome_of at 1, trace_of at 1. rewrite E. cbn [fst snd].
  split; [reflexivity|].
  unfold trace_of. rewrite on_ifit_run.
  destruct (Main.ifit ss) as [i|]; [|reflexivity]. cbn [snd].
  rewrite close_calls_cons, (console_close_calls_nothing Strap). reflexivity.
Qed.

(** C6 (the code at the failing input): both sessions are constructed and
    connected, the loop is ended by the interrupt, and the console's
    disconnect fails during cleanup.  The console's [close] is entered once,
    its error leaves the cleanup block, and the strap's [close] is never
    entered. *)
Theorem cleanup_skips_strap_after_console_failure :
  let ss := Main.mk (Some (IFitDevice.mk "treadmill" true 0 0 0 true))
                    (Some (PolarDevice.mk "C0:FF:EE" true 0 0 true 0 0)) in
  let ei := IFitDevice.mk_env (Ok tt) true (Ok tt) (fun _ => Ok tt)
              (Ok tt) (Ok tt) in
  let ep := PolarDevice.mk_env true (Ok tt) true 1000 (Ok tt) 1000
              (Ok [x5a]) 1000 (Ok tt) (Ok tt) in
  let ticks := [Main.mk_tick ei ep (Raise KeyboardInterrupt)] in
  let ci := IFitDevice.mk_env (Ok tt) true (Ok tt) (fun _ => Ok tt)
              (Ok tt) (Raise BleakError) in
  outcome_of (Main.body ei ep ticks) ss = Raise KeyboardInterrupt /\
  outcome_of (Main.guarded ei ep ticks ci ep) ss = Raise BleakError /\
  Main.close_calls Console (trace_of (Main.guarded ei ep ticks ci ep) ss) = 1%nat /\
  Main.close_calls Strap (trace_of (Main.guarded ei ep ticks ci ep) ss) = 0%nat.
Proof.
  cbv zeta. repeat split; vm_compute; reflexivity.
Qed.

(** * Further properties of the sessions *)

(** ** Loops of acknowledged writes *)

Lemma for_each_write_run {S} (res : Py.bytes -> outcome unit)
    (ps : list Py.bytes) (s : S) :
  for_each ps (fun p => await (EvWrite p) (res p)) s =
  (match first_failure res ps with
   | None => Ok tt
   | Some x => Raise x
   end, s, map EvWrite (written res ps)).
Proof.
  induction ps as [|p ps IH]; cbn [for_each written first_failure map].
  - reflexivity.
  - destruct (res p) as [[]|x].
    + rewrite bind_await_ok. unfold outcome_of, state_after, trace_of.
      rewrite IH. reflexivity.
    + reflexivity.
Qed.

Lemma written_is_prefix (res : Py.bytes -> outcome unit) (ps : list Py.bytes) :
  exists n, (n <= List.length ps)%nat /\ written res ps = firstn n ps.
Proof.
  induction ps as [|p ps (n & Hn & IH)].
  - exists 0%nat. split; [cbn; lia|reflexivity].
  - cbn [written]. destruct (res p) as [[]|x].
    + exists (S n). split; [cbn; lia|]. cbn [firstn]. now rewrite IH.
    + exists 1%nat. split; [cbn; lia|]. reflexivity.
Qed.

Lemma written_all (res : Py.bytes -> outcome unit) (ps : list Py.bytes) :
  first_failure res ps = None -> written res ps = ps.
Proof.
  induction ps as [|p ps IH]; cbn [written first_failure]; [reflexivity|].
  destruct (res p) as [[]|x]; [|discriminate].
  intros H. now rewrite IH.
Qed.

Lemma first_failure_ordinary (res : Py.bytes -> outcome unit)
    (ps : list Py.bytes) (x : exn) :
  forallb (fun p => ordinary (res p)) ps = true ->
  first_failure res ps = Some x -> is_Exception x = true.
Proof.
  induction ps as [|p ps IH]; cbn [forallb first_failure]; [discriminate|].
  intros H. apply andb_prop in H as [Hp Hps].
  destruct (res p) as [[]|y].
  - now apply IH.
  - intros E. injection E as <-. exact Hp.
Qed.

(** ** The console session: polling, handshake and closing *)

Lemma console_update_run (e : IFitDevice.env) (s : IFitDevice.t) :
  IFitDevice.update e s =
  if IFitDevice.connected s then
    match first_failure (IFitDevice.write_res e) IFIT_POLL_SEQUENCE with
    | None =>
        (Ok tt, s,
         map EvWrite (written (IFitDevice.write_res e) IFIT_POLL_SEQUENCE))
    | Some x =>
        if is_Exception x
        then (Ok tt, s,
              map EvWrite (written (IFitDevice.write_res e) IFIT_POLL_SEQUENCE)
              ++ [EvLogError Console])
        else (Raise x, s,
              map EvWrite (written (IFitDevice.write_res e) IFIT_POLL_SEQUENCE))
    end
  else (Ok tt, s, []).
Proof.
  unfold IFitDevice.update. rewrite bind_get.
  destruct (IFitDevice.connected s); [|reflexivity]. cbn [negb].
  unfold try_except. rewrite for_each_write_run.
  destruct (first_failure _ _) as [x|]; [|reflexivity].
  destruct (is_Exception x); reflexivity.
Qed.

Lemma console_update_quiet (e : IFitDevice.env) (s : IFitDevice.t) :
  forallb (fun p => ordinary (IFitDevice.write_res e p)) IFIT_POLL_SEQUENCE = true ->
  IFitDevice.update e s
  = (Ok tt, s, trace_of (IFitDevice.update e) s).
Proof.
  intros Hord. unfold trace_of. rewrite console_update_run.
  destruct (IFitDevice.connected s); [|reflexivity].
  destruct (first_failure _ _) as [x|] eqn:E; [|reflexivity].
  rewrite (first_failure_ordinary _ _ _ Hord E). reflexivity.
Qed.



(** On a connected console session [update] writes the poll packets in the
    order of [IFIT_POLL_SEQUENCE] and stops at the first write that fails:
    what is written is a prefix of the sequence, the whole of it when no
    write fails, and an ordinary failure is followed by one error log and
    nothing else. *)
Theorem console_update_poll_order (e : IFitDevice.env) (s : IFitDevice.t)
    (Hconn : IFitDevice.connected s = true)
    (Hord : forallb (fun p => ordinary (IFitDevice.write_res e p))
              IFIT_POLL_SEQUENCE = true) :
  exists n : nat,
    (n <= 3)%nat /\
    trace_of (IFitDevice.update e) s
    = map EvWrite (firstn n IFIT_POLL_SEQUENCE)
      ++ match first_failure (IFitDevice.write_res e) IFIT_POLL_SEQUENCE with
         | None => []
         | Some _ => [EvLogError Console]
         end /\
    (first_failure (IFitDevice.write_res e) IFIT_POLL_SEQUENCE = None -> n = 3%nat) /\
    (forall x, first_failure (IFitDevice.write_res e) IFIT_POLL_SEQUENCE = Some x ->
               (0 < n)%nat /\
               IFitDevice.write_res e (nth (n - 1) IFIT_POLL_SEQUENCE []) = Raise x).
Proof.
  unfold trace_of. rewrite console_update_run, Hconn.
  set (res := IFitDevice.write_res e) in *.
  assert (forall ps,
             exists n, (n <= List.length ps)%nat /\
               written res ps = firstn n ps /\
               (first_failure res ps = None -> n = List.length ps) /\
               (forall x, first_failure res ps = Some x ->
                          (0 < n)%nat /\ res (nth (n - 1) ps []) = Raise x)) as Hgen.
  { induction ps as [|p ps (n & Hn & Hw & Hnone & Hsome)].
    - exists 0%nat. cbn. repeat split; try lia; discriminate.
    - cbn [written first_failure List.length]. destruct (res p) as [[]|y] eqn:Ep.
      + exists (S n). split; [lia|]. split; [cbn [firstn]; now rewrite Hw|].
        split; [intros H; now rewrite (Hnone H)|].
        intros x Hx. destruct (Hsome x Hx) as [Hpos Hres].
        split; [lia|]. replace (S n - 1)%nat with (S (n - 1)) by lia. exact Hres.
      + exists 1%nat. split; [lia|]. split; [reflexivity|].
        split; [discriminate|]. intros x Hx. injection Hx as <-.
        split; [lia|exact Ep]. }
  destruct (Hgen IFIT_POLL_SEQUENCE) as (n & Hn & Hw & Hnone & Hsome).
  exists n. split; [exact Hn|]. rewrite Hw.
  split; [|split; [exact Hnone|exact Hsome]].
  destruct (first_failure res IFIT_POLL_SEQUENCE) as [x|] eqn:E.
  - rewrite (first_failure_ordinary _ _ _ Hord E). reflexivity.
  - cbn [snd]. now rewrite app_nil_r.
Qed.

(** The second poll write fails: the first two packets are written, the
    third is not, and the error is logged. *)
Lemma console_update_poll_order_witness :
  let second := nth 1 IFIT_POLL_SEQUENCE [] in
  let e := IFitDevice.mk_env (Ok tt) true (Ok tt)
             (fun p => if Py.starts_with second p then Raise BleakError else Ok tt)
             (Ok tt) (Ok tt) in
  let s := IFitDevice.mk "treadmill" true 0 0 0 true in
  trace_of (IFitDevice.update e) s
  = map EvWrite (firstn 2 IFIT_POLL_SEQUENCE) ++ [EvLogError Console] /\
  exists n : nat, (n <= 3)%nat /\
    trace_of (IFitDevice.update e) s
    = map EvWrite (firstn n IFIT_POLL_SEQUENCE)
      ++ match first_failure (IFitDevice.write_res e) IFIT_POLL_SEQUENCE with
         | None => []
         | Some _ => [EvLogError Console]
         end.
Proof.
  intros second e s. split; [reflexivity|].
  destruct (console_update_poll_order e s eq_refl eq_refl) as (n & Hn & Ht & _).
  exists n. split; [exact Hn|exact Ht].
Defined.

(** On a connected console session [setup] subscribes first, then writes the
    handshake packets in the order of [IFIT_INIT_SEQUENCE] and waits 2 time
    units.  Nothing is caught: a failed subscription is raised before any
    packet is written, a failed write is raised before the packets that
    follow it and before the settle delay.  The session record is never
    modified. *)
Theorem console_setup_handshake (e : IFitDevice.env) (s : IFitDevice.t)
    (Hconn : IFitDevice.connected s = true) :
  state_after (IFitDevice.setup e) s = s /\
  match IFitDevice.start_notify_res e with
  | Raise x =>
      outcome_of (IFitDevice.setup e) s = Raise x /\
      trace_of (IFitDevice.setup e) s = [EvStartNotify Console]
  | Ok _ =>
      match first_failure (IFitDevice.write_res e) IFIT_INIT_SEQUENCE with
      | None =>
          outcome_of (IFitDevice.setup e) s = Ok tt /\
          trace_of (IFitDevice.setup e) s
          = EvStartNotify Console :: map EvWrite IFIT_INIT_SEQUENCE ++ [EvSleep 2]
      | Some x =>
          outcome_of (IFitDevice.setup e) s = Raise x /\
          exists n, (0 < n <= 4)%nat /\
            IFitDevice.write_res e (nth (n - 1) IFIT_INIT_SEQUENCE []) = Raise x /\
            trace_of (IFitDevice.setup e) s
            = EvStartNotify Console :: map EvWrite (firstn n IFIT_INIT_SEQUENCE)
      end
  end.
Proof.
  set (res := IFitDevice.write_res e).
  assert (IFitDevice.setup e s =
          match IFitDevice.start_notify_res e with
          | Raise x => (Raise x, s, [EvStartNotify Console])
          | Ok _ =>
              match first_failure res IFIT_INIT_SEQUENCE with
              | None =>
                  (Ok tt, s, EvStartNotify Console
                             :: map EvWrite (written res IFIT_INIT_SEQUENCE)
                             ++ [EvSleep 2])
              | Some x =>
                  (Raise x, s, EvStartNotify Console
                               :: map EvWrite (written res IFIT_INIT_SEQUENCE))
              end
          end) as E.
  { unfold IFitDevice.setup. rewrite bind_get, Hconn. cbn [negb].
    destruct (IFitDevice.start_notify_res e) as [[]|x]; [|reflexivity].
    rewrite bind_await_ok. unfold outcome_of, state_after, trace_of.
    rewrite bind_run. unfold outcome_of, state_after, trace_of.
    rewrite for_each_write_run. fold res.
    destruct (first_failure res IFIT_INIT_SEQUENCE); reflexivity. }
  unfold outcome_of, state_after, trace_of. rewrite E. clear E.
  destruct (IFitDevice.start_notify_res e) as [[]|x]; [|repeat split].
  destruct (first_failure res IFIT_INIT_SEQUENCE) as [x|] eqn:Ef.
  - cbn [fst snd]. repeat split.
    assert (forall ps y, first_failure res ps = Some y ->
              exists n, (0 < n <= List.length ps)%nat /\
                res (nth (n - 1) ps []) = Raise y /\
                written res ps = firstn n ps) as Hgen.
    { induction ps as [|p ps IH]; cbn [first_failure written List.length];
        [discriminate|].
      intros y. destruct (res p) as [[]|z] eqn:Ep.
      - intros Hy. destruct (IH y Hy) as (n & Hn & Hres & Hw).
        exists (S n). split; [lia|].
        split; [replace (S n - 1)%nat with (S (n - 1)) by lia; exact Hres|].
        cbn [firstn]. now rewrite Hw.
      - intros Hy. injection Hy as <-. exists 1%nat.
        split; [lia|]. split; [exact Ep|reflexivity]. }
    destruct (Hgen _ _ Ef) as (n & Hn & Hres & Hw).
    exists n. split; [exact Hn|]. split; [exact Hres|]. now rewrite Hw.
  - cbn [fst snd]. rewrite (written_all _ _ Ef). repeat split.
Qed.

Lemma console_setup_handshake_witness :
  let e := IFitDevice.mk_env (Ok tt) true (Ok tt) (fun _ => Ok tt)
             (Ok tt) (Ok tt) in
  let s := IFitDevice.mk "treadmill" true 0 0 0 true in
  trace_of (IFitDevice.setup e) s
  = EvStartNotify Console :: map EvWrite IFIT_INIT_SEQUENCE ++ [EvSleep 2].
Proof.
  intros e s.
  exact (proj2 (proj2 (console_setup_handshake e s eq_refl))).
Defined.

(** The console's [close] does not mark the session disconnected: on a
    connected session a second [close] performs the unsubscribe again. *)
Theorem console_close_keeps_connected
    (e1 e2 : IFitDevice.env) (s : IFitDevice.t)
    (Hclient : IFitDevice.client s = true)
    (Hconn : IFitDevice.connected s = true) :
  state_after (IFitDevice.close e1) s = s /\
  exists rest,
    trace_of (IFitDevice.close e2) (state_after (IFitDevice.close e1) s)
    = EvStopNotify Console :: rest.
Proof.
  assert (state_after (IFitDevice.close e1) s = s) as E.
  { unfold state_after. rewrite console_close_run.
    destruct (IFitDevice.client s && IFitDevice.connected s); [|reflexivity].
    destruct (IFitDevice.stop_notify_res e1) as [[]|x];
      [|destruct (is_Exception x)]; reflexivity. }
  split; [exact E|]. rewrite E. unfold trace_of.
  rewrite console_close_run, Hclient, Hconn. cbn [andb].
  destruct (IFitDevice.stop_notify_res e2) as [[]|x];
    [|destruct (is_Exception x)]; cbn [snd]; eexists; reflexivity.
Qed.

Lemma console_close_keeps_connected_witness :
  let e := IFitDevice.mk_env (Ok tt) true (Ok tt) (fun _ => Ok tt)
             (Ok tt) (Ok tt) in
  let s := IFitDevice.mk "treadmill" true 0 0 0 true in
  IFitDevice.connected (state_after (IFitDevice.close e) s) = true /\
  trace_of (IFitDevice.close e) (state_after (IFitDevice.close e) s)
  = [EvStopNotify Console; EvDisconnect Console].
Proof.
  intros e s.
  destruct (console_close_keeps_connected e e s eq_refl eq_refl) as [E _].
  split; [now rewrite E|reflexivity].
Defined.





(** ** The strap session: what a tick does *)

Lemma reconcile_connected (e : PolarDevice.env) (s : PolarDevice.t) :
  PolarDevice.connected (reconcile e s) = reconciled e s.
Proof. unfold reconcile, reconciled. destruct (PolarDevice.client s); reflexivity. Qed.

(** What a tick does when it finds the session Disconnected. *)
Lemma disconnected_tick (e : PolarDevice.env) (s : PolarDevice.t) :
  reconciled e s = false ->
  PolarDevice.update e s =
  let s0 := reconcile e s in
  let s1 := PolarDevice.set_client true s0 in
  if PolarDevice.address_set s then
    match PolarDevice.connect_res e with
    | Ok _ =>
        if PolarDevice.is_connected e then
          let s2 := PolarDevice.set_connection_start (PolarDevice.t_connect e)
                      (PolarDevice.set_connected true s1) in
          match PolarDevice.start_notify_res e with
          | Ok _ => (Ok tt, s2, [EvConnect Strap; EvSleep 1; EvStartNotify Strap])
          | Raise x =>
              if is_Exception x
              then (Ok tt, PolarDevice.set_connected false s2,
                    [EvConnect Strap; EvSleep 1; EvStartNotify Strap;
                     EvLogError Strap])
              else (Raise x, s2,
                    [EvConnect Strap; EvSleep 1; EvStartNotify Strap])
          end
        else (Ok tt, PolarDevice.set_connected false s1,
              [EvConnect Strap; EvSleep 1])
    | Raise x =>
        if is_Exception x
        then (Ok tt, PolarDevice.set_connected false s1,
              [EvConnect Strap; EvLogError Strap])
        else (Raise x, s1, [EvConnect Strap])
    end
  else (Ok tt, s0, []).
Proof.
  intros Hdisc. rewrite (update_when_disconnected e s Hdisc). cbv zeta.
  pose proof (reconcile_connected e s) as Hc. rewrite Hdisc in Hc.
  rewrite <- (reconcile_address_set e s).
  set (s0 := reconcile e s) in *.
  unfold bind at 1.
  destruct (PolarDevice.address_set s0) eqn:Ha.
  - rewrite (connect_run e _ Ha).
    destruct (PolarDevice.connect_res e) as [[]|x];
      [destruct (PolarDevice.is_connected e)|destruct (is_Exception x)];
      rewrite ?bind_get;
      cbn [PolarDevice.connected PolarDevice.set_connection_start
           PolarDevice.set_connected];
      rewrite ?setup_run;
      cbn [PolarDevice.connected PolarDevice.set_connection_start
           PolarDevice.set_connected];
      try (destruct (PolarDevice.start_notify_res e) as [[]|y];
           [|destruct (is_Exception y)]);
      reflexivity.
  - rewrite (connect_without_address e _ Ha), bind_get, Hc. reflexivity.
Qed.

Lemma strap_update_ok (e : PolarDevice.env) (s : PolarDevice.t) :
  ordinary_strap e = true -> outcome_of (PolarDevice.update e) s = Ok tt.
Proof.
  intros Hord.
  unfold ordinary_strap in Hord.
  repeat (apply andb_prop in Hord as [Hord ?]).
  unfold outcome_of.
  destruct (reconciled e s) eqn:Hr.
  - rewrite (connected_tick e s Hr).
    destruct (PolarDevice.battery_due e s); [|reflexivity].
    destruct (PolarDevice.read_res e) as [[|b rest]|x]; try reflexivity.
    cbn [ordinary] in *.
    replace (is_Exception x) with true by (symmetry; assumption). reflexivity.
  - rewrite (disconnected_tick e s Hr). cbv zeta.
    destruct (PolarDevice.address_set s); [|reflexivity].
    destruct (PolarDevice.connect_res e) as [[]|x].
    + destruct (PolarDevice.is_connected e); [|reflexivity].
      destruct (PolarDevice.start_notify_res e) as [[]|y]; [reflexivity|].
      cbn [ordinary] in *.
      replace (is_Exception y) with true by (symmetry; assumption). reflexivity.
    + cbn [ordinary] in *.
      replace (is_Exception x) with true by (symmetry; assumption). reflexivity.
Qed.

(** With ordinary answers of the transport the strap's [update] never
    raises: failures of the connect, of the subscription and of the battery
    read all end inside the call. *)
Theorem strap_update_never_raises (e : PolarDevice.env) (s : PolarDevice.t)
    (Hord : ordinary_strap e = true) :
  outcome_of (PolarDevice.update e) s = Ok tt.
Proof.
  unfold ordinary_strap in Hord.
  apply andb_prop in Hord as [Hord _]. apply andb_prop in Hord as [Hord _].
  apply andb_prop in Hord as [Hord Hread].
  apply andb_prop in Hord as [Hconnect Hsub].
  unfold outcome_of.
  destruct (reconciled e s) eqn:Hr.
  - rewrite (connected_tick e s Hr).
    destruct (PolarDevice.battery_due e s); [|reflexivity].
    destruct (PolarDevice.read_res e) as [[|b rest]|x]; try reflexivity.
    cbn [ordinary] in Hread. now rewrite Hread.
  - rewrite (disconnected_tick e s Hr). cbv zeta.
    destruct (PolarDevice.address_set s); [|reflexivity].
    destruct (PolarDevice.connect_res e) as [[]|x].
    + destruct (PolarDevice.is_connected e); [|reflexivity].
      destruct (PolarDevice.start_notify_res e) as [[]|y]; [reflexivity|].
      cbn [ordinary] in Hsub. now rewrite Hsub.
    + cbn [ordinary] in Hconnect. now rewrite Hconnect.
Qed.

Lemma strap_update_never_raises_witness :
  let e := PolarDevice.mk_env false (Raise BleakError) false 10
             (Raise BleakError) 10 (Raise BleakError) 10 (Ok tt) (Ok tt) in
  outcome_of (PolarDevice.update e) (PolarDevice.init "C0:FF:EE") = Ok tt.
Proof.
  intros e. exact (strap_update_never_raises e _ eq_refl).
Defined.

(** While the transport reports the link up, [update] neither connects nor
    subscribes, whatever the session's own flag says: a session whose
    subscription failed (flag cleared by [setup], link still up) is set back
    to Connected by the next tick without the heart-rate subscription being
    tried again. *)
Theorem strap_link_up_never_resubscribes (e : PolarDevice.env) (s : PolarDevice.t)
    (Hclient : PolarDevice.client s = true)
    (Hlink : PolarDevice.link_up e = true) :
  PolarDevice.connected (state_after (PolarDevice.update e) s) = true /\
  ~ In (EvConnect Strap) (trace_of (PolarDevice.update e) s) /\
  ~ In (EvStartNotify Strap) (trace_of (PolarDevice.update e) s).
Proof.
  assert (reconciled e s = true) as Hr by (unfold reconciled; now rewrite Hclient).
  pose proof (reconcile_connected e s) as Hc. rewrite Hr in Hc.
  unfold state_after, trace_of. rewrite (connected_tick e s Hr).
  destruct (PolarDevice.battery_due e s);
    [destruct (PolarDevice.read_res e) as [[|b rest]|x];
     [| |destruct (is_Exception x)]|];
    cbn [fst snd PolarDevice.connected PolarDevice.set_last_battery_read
         PolarDevice.set_battery];
    (split; [exact Hc|split; cbn; intuition discriminate]).
Qed.

(** The subscription fails in one tick, the link stays up, and the next tick
    shows the session Connected with no subscription attempted. *)
Lemma strap_link_up_never_resubscribes_witness :
  let e1 := PolarDevice.mk_env false (Ok tt) true 10 (Raise BleakError) 10
              (Ok [x5a]) 10 (Ok tt) (Ok tt) in
  let e2 := PolarDevice.mk_env true (Ok tt) true 11 (Ok tt) 11
              (Ok [x5a]) 11 (Ok tt) (Ok tt) in
  let s1 := state_after (PolarDevice.update e1) (PolarDevice.init "C0:FF:EE") in
  PolarDevice.connected s1 = false /\
  PolarDevice.connected (state_after (PolarDevice.update e2) s1) = true /\
  ~ In (EvStartNotify Strap) (trace_of (PolarDevice.update e2) s1).
Proof.
  intros e1 e2 s1.
  destruct (strap_link_up_never_resubscribes e2 s1 eq_refl eq_refl)
    as (Hc & _ & Hn).
  split; [reflexivity|]. split; [exact Hc|exact Hn].
Defined.

(** A tick that finds the session Disconnected and whose connect fails ends
    normally after one connect attempt and one error log, and leaves the
    session such that the next tick, if the link is still down, attempts the
    connect again. *)
Theorem strap_retries_connect (e e' : PolarDevice.env) (s : PolarDevice.t)
    (x : exn)
    (Hdisc : reconciled e s = false)
    (Haddr : PolarDevice.address_set s = true)
    (Hfail : PolarDevice.connect_res e = Raise x)
    (Hx : is_Exception x = true)
    (Hdown : PolarDevice.link_up e' = false) :
  outcome_of (PolarDevice.update e) s = Ok tt /\
  trace_of (PolarDevice.update e) s = [EvConnect Strap; EvLogError Strap] /\
  PolarDevice.connected (state_after (PolarDevice.update e) s) = false /\
  exists rest,
    trace_of (PolarDevice.update e') (state_after (PolarDevice.update e) s)
    = EvConnect Strap :: rest.
Proof.
  unfold outcome_of, state_after, trace_of.
  rewrite (disconnected_tick e s Hdisc), Haddr, Hfail, Hx. cbv zeta. cbn [fst snd].
  split; [reflexivity|]. split; [reflexivity|]. split; [reflexivity|].
  set (s1 := PolarDevice.set_connected false
               (PolarDevice.set_client true (reconcile e s))).
  assert (reconciled e' s1 = false) as Hr by exact Hdown.
  assert (PolarDevice.address_set s1 = true) as Ha.
  { change (PolarDevice.address_set s1)
      with (PolarDevice.address_set (reconcile e s)).
    now rewrite reconcile_address_set. }
  rewrite (disconnected_tick e' s1 Hr), Ha. cbv zeta.
  destruct (PolarDevice.connect_res e') as [[]|y];
    [destruct (PolarDevice.is_connected e');
     [destruct (PolarDevice.start_notify_res e') as [[]|z];
      [|destruct (is_Exception z)]|]
    |destruct (is_Exception y)];
    cbn [snd]; eexists; reflexivity.
Qed.

Lemma strap_retries_connect_witness :
  let e := PolarDevice.mk_env false (Raise BleakError) false 10 (Ok tt) 10
             (Ok [x5a]) 10 (Ok tt) (Ok tt) in
  let s := PolarDevice.init "C0:FF:EE" in
  trace_of (PolarDevice.update e) s = [EvConnect Strap; EvLogError Strap] /\
  trace_of (PolarDevice.update e) (state_after (PolarDevice.update e) s)
  = [EvConnect Strap; EvLogError Strap].
Proof.
  intros e s.
  destruct (strap_retries_connect e e s BleakError eq_refl eq_refl eq_refl
              eq_refl eq_refl) as (_ & Ht & _).
  split; [exact Ht|reflexivity].
Defined.

(** ** The strap session: ranges of the stored values *)

Lemma keeps_refl {S B} (f : S -> B) (s : S) : keeps f s s.
Proof. reflexivity. Qed.

Lemma keeps_trans {S B} (f : S -> B) (s1 s2 s3 : S) :
  keeps f s1 s2 -> keeps f s2 s3 -> keeps f s1 s3.
Proof. unfold keeps. congruence. Qed.

Ltac field_kept :=
  repeat (first
            [ preserve_step
            | progress cbv zeta
            | lazymatch goal with
              | |- preserves _ (match ?o with Some _ => _ | None => _ end) =>
                  destruct o
              end ];
          try exact (keeps_refl _); try exact (keeps_trans _));
  try (intros ?; reflexivity).

Lemma strap_methods_keep_hr (e : PolarDevice.env) :
  preserves (keeps PolarDevice.hr) (PolarDevice.connect e) /\
  preserves (keeps PolarDevice.hr) (PolarDevice.setup e) /\
  preserves (keeps PolarDevice.hr) (PolarDevice.update e) /\
  preserves (keeps PolarDevice.hr) (PolarDevice.close e) /\
  preserves (keeps PolarDevice.hr) PolarDevice._on_disconnect.
Proof.
  split; [|split; [|split; [|split]]];
    unfold PolarDevice.update, PolarDevice.connect, PolarDevice.setup,
      PolarDevice.close, PolarDevice._on_disconnect, PolarDevice._read_battery,
      getitem;
    field_kept.
Qed.

Lemma strap_methods_keep_battery (e : PolarDevice.env) :
  preserves (keeps PolarDevice.battery) (PolarDevice.connect e) /\
  preserves (keeps PolarDevice.battery) (PolarDevice.setup e) /\
  preserves (keeps PolarDevice.battery) (PolarDevice.close e) /\
  preserves (keeps PolarDevice.battery) PolarDevice._on_disconnect /\
  (forall data, preserves (keeps PolarDevice.battery) (PolarDevice._hr_handler data)).
Proof.
  split; [|split; [|split; [|split; [|intros data]]]];
    unfold PolarDevice.connect, PolarDevice.setup,
      PolarDevice.close, PolarDevice._on_disconnect, PolarDevice._hr_handler,
      PolarDevice.decode, getitem;
    field_kept.
Qed.

Lemma battery_after_tick (e : PolarDevice.env) (s : PolarDevice.t) :
  PolarDevice.battery (state_after (PolarDevice.update e) s) = PolarDevice.battery s
  \/ exists b, PolarDevice.battery (state_after (PolarDevice.update e) s)
               = Py.byte_val b.
Proof.
  destruct (reconciled e s) eqn:Hr.
  - destruct (reconcile_keeps_battery e s) as [Hb _].
    unfold state_after. rewrite (connected_tick e s Hr).
    destruct (PolarDevice.battery_due e s); [|now left].
    destruct (PolarDevice.read_res e) as [[|b rest]|x];
      [now left|right; now exists b|destruct (is_Exception x); now left].
  - left. apply (disconnected_tick_reads_no_battery e s Hr).
Qed.

Lemma hr_after_frame (s : PolarDevice.t) (data : Py.bytes) :
  0 <= PolarDevice.hr s <= 65535 ->
  0 <= PolarDevice.hr (PolarDevice.notified s data) <= 65535.
Proof.
  intros Hs. destruct data as [|flags rest]; [exact Hs|].
  rewrite hr_notified_cons.
  destruct (Z.testbit (Py.byte_val flags) 0).
  - cbn [PolarDevice.hr PolarDevice.set_hr].
    apply (slice2_range (flags :: rest) 1).
  - destruct rest as [|b rest]; [exact Hs|].
    cbn [PolarDevice.hr PolarDevice.set_hr].
    pose proof (byte_val_range b). lia.
Qed.

(** In every state a strap session can reach, by notifications, by the
    disconnect callback and by its methods under any answers of the transport,
    [hr] lies in [0, 65535] and [battery] in [0, 255]: nothing in the program
    keeps the battery level within 0..100. *)
Theorem strap_values_in_range (addr : string) (s : PolarDevice.t)
    (Hreach : polar_reachable addr s) :
  0 <= PolarDevice.hr s <= 65535 /\ 0 <= PolarDevice.battery s <= 255.
Proof.
  induction Hreach as [|s s' _ [Hhr Hbat] Hstep].
  - cbn. lia.
  - destruct Hstep as [e|e|e|e| |data].
    + destruct (strap_methods_keep_hr e) as (H & _).
      destruct (strap_methods_keep_battery e) as (H' & _).
      specialize (H s). specialize (H' s). unfold keeps, state_after in *.
      rewrite H, H'. split; assumption.
    + destruct (strap_methods_keep_hr e) as (_ & H & _).
      destruct (strap_methods_keep_battery e) as (_ & H' & _).
      specialize (H s). specialize (H' s). unfold keeps, state_after in *.
      rewrite H, H'. split; assumption.
    + destruct (strap_methods_keep_hr e) as (_ & _ & H & _).
      specialize (H s). unfold keeps, state_after in H. rewrite H.
      split; [assumption|].
      destruct (battery_after_tick e s) as [E|[b E]];
        unfold state_after in E; rewrite E; [assumption|].
      pose proof (byte_val_range b). lia.
    + destruct (strap_methods_keep_hr e) as (_ & _ & _ & H & _).
      destruct (strap_methods_keep_battery e) as (_ & _ & H' & _).
      specialize (H s). specialize (H' s). unfold keeps, state_after in *.
      rewrite H, H'. split; assumption.
    + destruct (strap_methods_keep_hr (PolarDevice.mk_env false (Ok tt) false 0
                  (Ok tt) 0 (Ok []) 0 (Ok tt) (Ok tt))) as (_ & _ & _ & _ & H).
      destruct (strap_methods_keep_battery (PolarDevice.mk_env false (Ok tt)
                  false 0 (Ok tt) 0 (Ok []) 0 (Ok tt) (Ok tt)))
        as (_ & _ & _ & H' & _).
      specialize (H s). specialize (H' s). unfold keeps, state_after in *.
      rewrite H, H'. split; assumption.
    + split; [now apply hr_after_frame|].
      destruct (strap_methods_keep_battery (PolarDevice.mk_env false (Ok tt)
                  false 0 (Ok tt) 0 (Ok []) 0 (Ok tt) (Ok tt)))
        as (_ & _ & _ & _ & H').
      specialize (H' data s). unfold keeps, state_after in H'.
      unfold PolarDevice.notified. rewrite H'. assumption.
Qed.

(** A battery characteristic reading 255 is stored as it is. *)
Lemma strap_values_in_range_witness :
  let e := PolarDevice.mk_env true (Ok tt) true 100 (Ok tt) 100
             (Ok [xff]) 100 (Ok tt) (Ok tt) in
  let s := state_after (PolarDevice.update e)
             (state_after (PolarDevice.update e) (PolarDevice.init "C0:FF:EE")) in
  PolarDevice.battery s = 255 /\
  (0 <= PolarDevice.hr s <= 65535 /\ 0 <= PolarDevice.battery s <= 255).
Proof.
  intros e s. split; [reflexivity|].
  apply (strap_values_in_range "C0:FF:EE").
  eapply preach_step; [eapply preach_step; [apply preach_init|]|];
    apply pstep_update.
Defined.

(** ** Choosing the devices *)

Lemma scan_step_ifit (a b : option string) (d : Startup.scanned) :
  usable (fst (Startup.scan_step (a, b) d)) =
  match usable a with
  | Some x => Some x
  | None =>
      if Startup.advertises_ifit d
         && negb (String.eqb (Startup.address d) EmptyString)
      then Some (Startup.address d) else None
  end.
Proof.
  unfold Startup.scan_step, usable. cbn [fst].
  destruct (Startup.truthy a) eqn:Ha; cbn [negb andb].
  - rewrite Ha. destruct a; [reflexivity|discriminate].
  - destruct (Startup.advertises_ifit d); cbn [andb].
    + cbn [Startup.truthy].
      destruct (String.eqb (Startup.address d) EmptyString); reflexivity.
    + now rewrite Ha.
Qed.

Lemma scan_step_polar (a b : option string) (d : Startup.scanned) :
  usable (snd (Startup.scan_step (a, b) d)) =
  match usable b with
  | Some x => Some x
  | None =>
      if Startup.looks_like_polar d
         && negb (String.eqb (Startup.address d) EmptyString)
      then Some (Startup.address d) else None
  end.
Proof.
  unfold Startup.scan_step, usable. cbn [snd].
  destruct (Startup.truthy b) eqn:Hb; cbn [negb].
  - rewrite Hb. destruct b; [reflexivity|discriminate].
  - destruct (Startup.looks_like_polar d); cbn [andb].
    + cbn [Startup.truthy].
      destruct (String.eqb (Startup.address d) EmptyString); reflexivity.
    + now rewrite Hb.
Qed.

(** The first match wins, for each family on its own: the console session
    is opened on the address of the first scanned device, in scan order, that
    advertises the iFit service and has a non-empty address, and on none when
    there is no such device; likewise the strap session, for the first device
    that advertises the heart-rate service or whose name contains "Polar". *)
Theorem first_matching_device_is_chosen (devices : list Startup.scanned) :
  usable (fst (Startup.choose devices))
  = option_map Startup.address
      (find (fun d => Startup.advertises_ifit d
                      && negb (String.eqb (Startup.address d) EmptyString))
            devices)
  /\
  usable (snd (Startup.choose devices))
  = option_map Startup.address
      (find (fun d => Startup.looks_like_polar d
                      && negb (String.eqb (Startup.address d) EmptyString))
            devices).
Proof.
  unfold Startup.choose.
  assert (
  forall a b,
    usable (fst (fold_left Startup.scan_step devices (a, b))) =
    match usable a with
    | Some x => Some x
    | None =>
        option_map Startup.address
          (find (fun d => Startup.advertises_ifit d
                          && negb (String.eqb (Startup.address d) EmptyString))
                devices)
    end
    /\
    usable (snd (fold_left Startup.scan_step devices (a, b))) =
    match usable b with
    | Some x => Some x
    | None =>
        option_map Startup.address
          (find (fun d => Startup.looks_like_polar d
                          && negb (String.eqb (Startup.address d) EmptyString))
                devices)
    end) as Hfrom.
  {
    induction devices as [|d devices IH]; intros a b.
    - cbn. split; [destruct (usable a)|destruct (usable b)]; reflexivity.
    - cbn [fold_left find].
      pose proof (scan_step_ifit a b d) as Hi.
      pose proof (scan_step_polar a b d) as Hp.
      destruct (Startup.scan_step (a, b) d) as [a' b']. cbn [fst snd] in Hi, Hp.
      destruct (IH a' b') as [IHi IHp]. rewrite IHi, IHp, Hi, Hp.
      split.
      + destruct (usable a); [reflexivity|].
        destruct (Startup.advertises_ifit d
                  && negb (String.eqb (Startup.address d) EmptyString));
          reflexivity.
      + destruct (usable b); [reflexivity|].
        destruct (Startup.looks_like_polar d
                  && negb (String.eqb (Startup.address d) EmptyString));
          reflexivity. }
  exact (Hfrom None None).
Qed.

(** The service identifier is compared without regard to case for the
    console, and a strap is also recognised by its name alone; one device can
    be chosen for both sessions. *)
Lemma choose_examples :
  let treadmill := Startup.mk_scanned (Some "I_TL")%string "AA:01"%string
                     ["00001533-1412-EFDE-1523-785FEABCD123"%string] in
  let strap := Startup.mk_scanned (Some "Polar H10 1234")%string "BB:02"%string [] in
  let other := Startup.mk_scanned None "CC:03"%string
                 ["0000180d-0000-1000-8000-00805f9b34fb"%string] in
  Startup.choose [treadmill; strap; other] = (Some "AA:01", Some "BB:02")%string /\
  Startup.choose [other; strap] = (None, Some "CC:03"%string) /\
  Startup.choose [] = (None, None).
Proof. repeat split. Qed.

(** ** Method bodies whose events all satisfy a predicate *)

Section Emits.

Context {S : Type} (P : event -> Prop).

Lemma emits_ret {A} (a : A) : emits_only P (@ret S A a).
Proof. intros s. constructor. Qed.

Lemma emits_raise {A} (e : exn) : emits_only P (@raise S A e).
Proof. intros s. constructor. Qed.

Lemma emits_get : emits_only P (@get S).
Proof. intros s. constructor. Qed.

Lemma emits_modify (f : S -> S) : emits_only P (modify f).
Proof. intros s. constructor. Qed.

Lemma emits_emit (ev : event) : P ev -> emits_only P (@emit S ev).
Proof. intros H s. repeat constructor. exact H. Qed.

Lemma emits_await {A} (ev : event) (o : outcome A) :
  P ev -> emits_only P (@await S A ev o).
Proof. intros H s. repeat constructor. exact H. Qed.

Lemma emits_bind {A B} (m : M S A) (k : A -> M S B) :
  emits_only P m -> (forall a, emits_only P (k a)) -> emits_only P (bind m k).
Proof.
  intros Hm Hk s. specialize (Hm s). unfold trace_of in *. rewrite bind_run.
  destruct (outcome_of m s) as [a|e]; cbn [snd]; [|exact Hm].
  apply Forall_app. split; [exact Hm|apply Hk].
Qed.

Lemma emits_try_except {A} (body : M S A) caught (handler : exn -> M S A) :
  emits_only P body -> (forall e, emits_only P (handler e)) ->
  emits_only P (try_except body caught handler).
Proof.
  intros Hb Hh s. specialize (Hb s). unfold trace_of, try_except in *.
  destruct (body s) as [[[a|e] s1] t1]; cbn [snd] in *; [exact Hb|].
  destruct (caught e); cbn [snd]; [|exact Hb].
  specialize (Hh e s1). unfold trace_of in Hh.
  destruct (handler e s1) as [[r s2] t2]. cbn [snd] in *.
  apply Forall_app. split; assumption.
Qed.

Lemma emits_try_finally {A} (body : M S A) (final : M S unit) :
  emits_only P body -> emits_only P final ->
  emits_only P (try_finally body final).
Proof.
  intros Hb Hf s. specialize (Hb s). unfold trace_of, try_finally in *.
  destruct (body s) as [[r s1] t1]. specialize (Hf s1). unfold trace_of in Hf.
  destruct (final s1) as [[[u|e] s2] t2]; cbn [snd] in *;
    apply Forall_app; split; assumption.
Qed.

Lemma emits_for_each {A} (xs : list A) (body : A -> M S unit) :
  (forall x, emits_only P (body x)) -> emits_only P (for_each xs body).
Proof.
  intros Hb. induction xs as [|x xs IH]; cbn [for_each].
  - apply emits_ret.
  - apply emits_bind; [apply Hb|intros _; exact IH].
Qed.

End Emits.

Lemma emits_only_impl {S A} (P Q : event -> Prop) (m : M S A) :
  (forall ev, P ev -> Q ev) -> emits_only P m -> emits_only Q m.
Proof.
  intros H Hm s. eapply Forall_impl; [exact H|apply Hm].
Qed.

Ltac emits_step :=
  lazymatch goal with
  | |- emits_only _ (if ?c then _ else _) => destruct c
  | |- emits_only _ (match ?d with [] => _ | _ :: _ => _ end) => destruct d
  | |- emits_only _ (match ?o with Some _ => _ | None => _ end) => destruct o
  | |- emits_only _ (ret _) => apply emits_ret
  | |- emits_only _ (raise _) => apply emits_raise
  | |- emits_only _ get => apply emits_get
  | |- emits_only _ (modify _) => apply emits_modify
  | |- emits_only _ (emit _) => apply emits_emit
  | |- emits_only _ (await _ _) => apply emits_await
  | |- emits_only _ (bind _ _) => apply emits_bind; [|intros ?; cbv beta]
  | |- emits_only _ (try_except _ _ _) =>
      apply emits_try_except; [|intros ?; cbv beta]
  | |- emits_only _ (try_finally _ _) => apply emits_try_finally
  | |- emits_only _ (for_each _ _) => apply emits_for_each; intros ?; cbv beta
  end.

(** The methods of the sessions record transport events only. *)
Lemma console_methods_events (e : IFitDevice.env) :
  emits_only transport_event (IFitDevice.connect e) /\
  emits_only transport_event (IFitDevice.setup e) /\
  emits_only transport_event (IFitDevice.update e) /\
  emits_only transport_event (IFitDevice.close e).
Proof.
  split; [|split; [|split]];
    unfold IFitDevice.connect, IFitDevice.setup, IFitDevice.update,
      IFitDevice.close;
    repeat (emits_step; try exact I).
Qed.

Lemma strap_methods_events (e : PolarDevice.env) :
  emits_only transport_event (PolarDevice.connect e) /\
  emits_only transport_event (PolarDevice.setup e) /\
  emits_only transport_event (PolarDevice.update e) /\
  emits_only transport_event (PolarDevice.close e).
Proof.
  split; [|split; [|split]];
    unfold PolarDevice.update, PolarDevice.connect, PolarDevice.setup,
      PolarDevice.close, PolarDevice._read_battery, getitem;
    repeat (emits_step; try exact I).
Qed.

Lemma emits_on_ifit (P : event -> Prop) (name : string)
    (m : M IFitDevice.t unit) :
  P (EvCall Console name) -> emits_only P m ->
  emits_only P (Main.on_ifit name m).
Proof.
  intros Hc Hm ss. unfold trace_of. rewrite on_ifit_run.
  destruct (Main.ifit ss) as [d|]; cbn [snd]; constructor; [exact Hc|apply Hm].
Qed.

Lemma emits_on_polar (P : event -> Prop) (name : string)
    (m : M PolarDevice.t unit) :
  P (EvCall Strap name) -> emits_only P m ->
  emits_only P (Main.on_polar name m).
Proof.
  intros Hc Hm ss. unfold trace_of. rewrite on_polar_run.
  destruct (Main.polar ss) as [d|]; cbn [snd]; constructor; [exact Hc|apply Hm].
Qed.

Lemma transport_event_not_close (d : device) (ev : event) :
  transport_event ev -> Main.is_close d ev = false.
Proof. destruct ev; cbn; intros H; try reflexivity; contradiction. Qed.

Lemma transport_event_not_row (ev : event) :
  transport_event ev -> is_row ev = false.
Proof. destruct ev; cbn; intros H; try reflexivity; contradiction. Qed.

(** ** The guarded part of [main] *)

Lemma same_presence_refl ss : same_presence ss ss.
Proof. split; reflexivity. Qed.

Lemma same_presence_trans ss1 ss2 ss3 :
  same_presence ss1 ss2 -> same_presence ss2 ss3 -> same_presence ss1 ss3.
Proof. unfold same_presence. intros [A1 B1] [A2 B2]. split; congruence. Qed.

Lemma on_ifit_presence name m : preserves same_presence (Main.on_ifit name m).
Proof.
  intros ss. unfold state_after. rewrite on_ifit_run.
  destruct ss as [[d|] p]; split; reflexivity.
Qed.

Lemma on_polar_presence name m : preserves same_presence (Main.on_polar name m).
Proof.
  intros ss. unfold state_after. rewrite on_polar_run.
  destruct ss as [i [d|]]; split; reflexivity.
Qed.

Ltac presence_kept :=
  repeat (first
            [ apply on_ifit_presence | apply on_polar_presence
            | preserve_step ];
          try exact same_presence_refl; try exact same_presence_trans).

Lemma body_presence ei ep ticks : preserves same_presence (Main.body ei ep ticks).
Proof.
  unfold Main.body, Main.loop, Main.tick. presence_kept.
Qed.

Lemma body_never_closes (d : device) ei ep ticks :
  emits_only (fun ev => Main.is_close d ev = false) (Main.body ei ep ticks).
Proof.
  pose proof (fun e => emits_only_impl _ _ _ (transport_event_not_close d)
                         (proj1 (proj2 (console_methods_events e)))) as Hcs.
  pose proof (fun e => emits_only_impl _ _ _ (transport_event_not_close d)
                         (proj1 (proj2 (proj2 (console_methods_events e))))) as Hcu.
  pose proof (fun e => emits_only_impl _ _ _ (transport_event_not_close d)
                         (proj1 (proj2 (strap_methods_events e)))) as Hps.
  pose proof (fun e => emits_only_impl _ _ _ (transport_event_not_close d)
                         (proj1 (proj2 (proj2 (strap_methods_events e))))) as Hpu.
  unfold Main.body, Main.loop, Main.tick.
  repeat (first
            [ apply emits_on_ifit; [destruct d; reflexivity|auto]
            | apply emits_on_polar; [destruct d; reflexivity|auto]
            | emits_step ];
          try reflexivity).
Qed.

Lemma try_finally_run {S A} (body : M S A) (final : M S unit) (s : S) :
  try_finally body final s =
  (match outcome_of final (state_after body s) with
   | Ok _ => outcome_of body s
   | Raise e => Raise e
   end,
   state_after final (state_after body s),
   trace_of body s ++ trace_of final (state_after body s)).
Proof.
  unfold try_finally, outcome_of, state_after, trace_of.
  destruct (body s) as [[r s1] t1]. cbn [fst snd].
  destruct (final s1) as [[[u|e] s2] t2]; reflexivity.
Qed.

Lemma catch_interrupt_run {S} (body : M S unit) (s : S) :
  try_except body
    (fun e => match e with KeyboardInterrupt => true | _ => false end)
    (fun _ => ret tt) s =
  (match outcome_of body s with
   | Raise KeyboardInterrupt => Ok tt
   | o => o
   end, state_after body s, trace_of body s).
Proof.
  unfold try_except, outcome_of, state_after, trace_of.
  destruct (body s) as [[[u|e] s1] t1]; cbn [fst snd]; [reflexivity|].
  destruct e; cbn; rewrite ?app_nil_r; reflexivity.
Qed.

Lemma console_close_ok (ci : IFitDevice.env) (ss : Main.sessions) :
  console_close_safe ci = true ->
  outcome_of (Main.on_ifit "close" (IFitDevice.close ci)) ss = Ok tt.
Proof.
  unfold console_close_safe. intros H. apply andb_prop in H as [Hs Hd].
  unfold outcome_of. rewrite on_ifit_run.
  destruct (Main.ifit ss) as [d|]; [|reflexivity]. cbn [fst].
  unfold outcome_of. rewrite console_close_run.
  destruct (IFitDevice.client d && IFitDevice.connected d); [|reflexivity].
  destruct (IFitDevice.disconnect_res ci) as [[]|y]; [|discriminate].
  destruct (IFitDevice.stop_notify_res ci) as [[]|x]; [reflexivity|].
  cbn [ordinary] in Hs. rewrite Hs. reflexivity.
Qed.

Lemma guarded_trace ei ep ticks ci cp (ss : Main.sessions) :
  trace_of (Main.guarded ei ep ticks ci cp) ss
  = trace_of (Main.body ei ep ticks) ss
    ++ trace_of (Main.cleanup ci cp) (state_after (Main.body ei ep ticks) ss).
Proof.
  unfold Main.guarded. unfold trace_of at 1. rewrite try_finally_run.
  cbn [snd]. unfold trace_of at 1, state_after at 1.
  rewrite catch_interrupt_run. reflexivity.
Qed.

(** Guaranteed cleanup, as far as the code gives it: when the console's
    [close] cannot raise, the guarded part of [main] enters [close] exactly
    once on every session that was constructed and on no other, however the
    [try] block ends: by the interrupt, by any other exception or with the
    observed ticks all done. *)
Theorem every_session_closed_once
    (ei : IFitDevice.env) (ep : PolarDevice.env) (ticks : list Main.tick_env)
    (ci : IFitDevice.env) (cp : PolarDevice.env) (ss : Main.sessions)
    (Hsafe : console_close_safe ci = true) :
  Main.close_calls Console (trace_of (Main.guarded ei ep ticks ci cp) ss)
    = option_count (Main.ifit ss) /\
  Main.close_calls Strap (trace_of (Main.guarded ei ep ticks ci cp) ss)
    = option_count (Main.polar ss).
Proof.
  assert (forall d,
             Main.close_calls d (trace_of (Main.body ei ep ticks) ss) = 0%nat)
    as Hbody.
  { intros d. pose proof (body_never_closes d ei ep ticks ss) as H.
    unfold Main.close_calls.
    induction H as [|ev tr Hev _ IH]; [reflexivity|].
    cbn [filter]. rewrite Hev. exact IH. }
  destruct (body_presence ei ep ticks ss) as [Hi Hp].
  rewrite guarded_trace, !close_calls_app, !Hbody.
  destruct (cleanup_closes_each_once ci cp
              (state_after (Main.body ei ep ticks) ss)
              (console_close_ok ci _ Hsafe)) as [Hc1 Hc2].
  rewrite Hc1, Hc2, Hi, Hp. split; reflexivity.
Qed.

(** The scenario of the interrupted loop, with a console whose unsubscribe
    fails but whose disconnect succeeds: both sessions are closed once. *)
Lemma every_session_closed_once_witness :
  let ss := Main.mk (Some (IFitDevice.mk "treadmill" true 0 0 0 true))
                    (Some (PolarDevice.mk "C0:FF:EE" true 0 0 true 0 0)) in
  let ei := IFitDevice.mk_env (Ok tt) true (Ok tt) (fun _ => Ok tt)
              (Ok tt) (Ok tt) in
  let ep := PolarDevice.mk_env true (Ok tt) true 1000 (Ok tt) 1000
              (Ok [x5a]) 1000 (Ok tt) (Ok tt) in
  let ticks := [Main.mk_tick ei ep (Raise KeyboardInterrupt)] in
  let ci := IFitDevice.mk_env (Ok tt) true (Ok tt) (fun _ => Ok tt)
              (Raise BleakError) (Ok tt) in
  Main.close_calls Console (trace_of (Main.guarded ei ep ticks ci ep) ss) = 1%nat /\
  Main.close_calls Strap (trace_of (Main.guarded ei ep ticks ci ep) ss) = 1%nat.
Proof.
  intros ss ei ep ticks ci.
  exact (every_session_closed_once ei ep ticks ci ep ss eq_refl).
Defined.

Lemma cleanup_ok (ci : IFitDevice.env) (cp : PolarDevice.env)
    (ss : Main.sessions) :
  console_close_safe ci = true -> strap_close_ordinary cp = true ->
  outcome_of (Main.cleanup ci cp) ss = Ok tt.
Proof.
  intros Hci Hcp. unfold Main.cleanup, outcome_of at 1.
  rewrite bind_run, (console_close_ok ci ss Hci). cbn [fst].
  unfold outcome_of. rewrite on_polar_run.
  destruct (Main.polar _) as [d|]; [|reflexivity]. cbn [fst].
  unfold strap_close_ordinary in Hcp. apply andb_prop in Hcp as [H1 H2].
  apply strap_close_swallows_errors.
  - intros x Hx. rewrite Hx in H1. exact H1.
  - intros x Hx. rewrite Hx in H2. exact H2.
Qed.

(** The interrupt ends the program quietly, and nothing else does: when the
    cleanup cannot raise, the guarded part of [main] returns normally if the
    [try] block was ended by [KeyboardInterrupt], and otherwise ends as the
    [try] block did; an error raised by the console's [setup], for one, is
    raised again after the cleanup. *)
Theorem only_interrupt_is_absorbed
    (ei : IFitDevice.env) (ep : PolarDevice.env) (ticks : list Main.tick_env)
    (ci : IFitDevice.env) (cp : PolarDevice.env) (ss : Main.sessions)
    (Hci : console_close_safe ci = true)
    (Hcp : strap_close_ordinary cp = true) :
  outcome_of (Main.guarded ei ep ticks ci cp) ss =
  match outcome_of (Main.body ei ep ticks) ss with
  | Raise KeyboardInterrupt => Ok tt
  | o => o
  end.
Proof.
  unfold Main.guarded, outcome_of at 1.
  rewrite try_finally_run. cbn [fst].
  rewrite (cleanup_ok ci cp _ Hci Hcp).
  unfold outcome_of at 1. rewrite catch_interrupt_run. reflexivity.
Qed.

(** A console whose subscription fails in [setup]: the error leaves [main]
    through the cleanup. *)
Lemma only_interrupt_is_absorbed_witness :
  let ss := Main.mk (Some (IFitDevice.mk "treadmill" true 0 0 0 true)) None in
  let ei := IFitDevice.mk_env (Ok tt) true (Raise BleakError) (fun _ => Ok tt)
              (Ok tt) (Ok tt) in
  let ep := PolarDevice.mk_env true (Ok tt) true 1000 (Ok tt) 1000
              (Ok [x5a]) 1000 (Ok tt) (Ok tt) in
  outcome_of (Main.guarded ei ep [] ei ep) ss = Raise BleakError.
Proof.
  intros ss ei ep.
  exact (only_interrupt_is_absorbed ei ep [] ei ep ss eq_refl eq_refl).
Defined.

(** ** One row per tick *)

Lemma rows_app (t1 t2 : trace) : rows (t1 ++ t2) = (rows t1 + rows t2)%nat.
Proof. unfold rows. now rewrite filter_app, length_app. Qed.

Lemma rows_none (tr : trace) :
  Forall (fun ev => is_row ev = false) tr -> rows tr = 0%nat.
Proof.
  unfold rows. induction 1 as [|ev tr Hev _ IH]; [reflexivity|].
  cbn [filter]. now rewrite Hev.
Qed.

Lemma update_calls_no_row (e : Main.tick_env) :
  emits_only (fun ev => is_row ev = false)
    (Main.on_ifit "update" (IFitDevice.update (Main.ifit_env e))) /\
  emits_only (fun ev => is_row ev = false)
    (Main.on_polar "update" (PolarDevice.update (Main.polar_env e))).
Proof.
  split.
  - apply emits_on_ifit; [reflexivity|].
    apply (emits_only_impl _ _ _ transport_event_not_row).
    apply console_methods_events.
  - apply emits_on_polar; [reflexivity|].
    apply (emits_only_impl _ _ _ transport_event_not_row).
    apply strap_methods_events.
Qed.

(** A tick in which nothing raises: the two updates, then one row built from
    the sessions as the updates left them, then the sleep. *)
Lemma quiet_tick_run (e : Main.tick_env) (ss : Main.sessions) :
  quiet_tick e = true ->
  exists t1 t2 ss',
    Main.tick e ss = (Ok tt, ss', t1 ++ t2 ++ [Main.row ss'; EvSleep 1]) /\
    Forall (fun ev => is_row ev = false) t1 /\
    Forall (fun ev => is_row ev = false) t2 /\
    same_presence ss ss'.
Proof.
  unfold quiet_tick. intros H.
  apply andb_prop in H as [H Hsleep]. apply andb_prop in H as [Hci Hcp].
  destruct (Main.sleep_res e) as [[]|x] eqn:Es; [|discriminate].
  set (m1 := Main.on_ifit "update" (IFitDevice.update (Main.ifit_env e))).
  set (m2 := Main.on_polar "update" (PolarDevice.update (Main.polar_env e))).
  assert (outcome_of m1 ss = Ok tt) as H1.
  { unfold outcome_of, m1. rewrite on_ifit_run.
    destruct (Main.ifit ss) as [d|]; [|reflexivity]. cbn [fst].
    unfold outcome_of. now rewrite (console_update_quiet _ d Hci). }
  assert (outcome_of m2 (state_after m1 ss) = Ok tt) as H2.
  { unfold outcome_of, m2. rewrite on_polar_run.
    destruct (Main.polar _) as [d|]; [|reflexivity]. cbn [fst].
    now apply strap_update_ok. }
  exists (trace_of m1 ss), (trace_of m2 (state_after m1 ss)),
    (state_after m2 (state_after m1 ss)).
  split; [|split; [|split]].
  - unfold Main.tick. fold m1 m2.
    rewrite bind_run, H1. unfold outcome_of, state_after, trace_of.
    rewrite bind_run. fold (outcome_of m2 (snd (fst (m1 ss)))).
    unfold state_after in H2. rewrite H2.
    unfold outcome_of, state_after, trace_of.
    rewrite bind_get, bind_emit. unfold outcome_of, state_after, trace_of, await.
    rewrite Es. reflexivity.
  - apply (proj1 (update_calls_no_row e)).
  - apply (proj2 (update_calls_no_row e)).
  - eapply same_presence_trans; [apply on_ifit_presence|apply on_polar_presence].
Qed.

Lemma row_columns (ss ss' : Main.sessions) :
  same_presence ss ss' ->
  (Main.ifit ss = None -> console_columns_empty (Main.row ss')) /\
  (Main.polar ss = None -> hr_column_empty (Main.row ss')).
Proof.
  intros [Hi Hp]. unfold Main.row, console_columns_empty, hr_column_empty.
  split; intros E; rewrite E in *; cbn in *.
  - destruct (Main.ifit ss'); [discriminate|repeat split].
  - destruct (Main.polar ss'); [discriminate|reflexivity].
Qed.

Lemma not_row_columns (tr : trace) :
  Forall (fun ev => is_row ev = false) tr ->
  Forall console_columns_empty tr /\ Forall hr_column_empty tr.
Proof.
  intros H. split; (eapply Forall_impl; [|exact H]);
    intros ev Hev; destruct ev; cbn in *; try exact I; discriminate.
Qed.

(** Over any run of ticks in which nothing raises, the loop hands exactly
    one row per tick to the CSV writer; the console columns of every row are
    empty when there is no console session, and the heart-rate column is
    empty when there is no strap session. *)
Theorem one_row_per_tick (ticks : list Main.tick_env) (ss : Main.sessions)
    (Hquiet : forallb quiet_tick ticks = true) :
  outcome_of (Main.loop ticks) ss = Ok tt /\
  rows (trace_of (Main.loop ticks) ss) = List.length ticks /\
  (Main.ifit ss = None ->
   Forall console_columns_empty (trace_of (Main.loop ticks) ss)) /\
  (Main.polar ss = None ->
   Forall hr_column_empty (trace_of (Main.loop ticks) ss)).
Proof.
  revert ss Hquiet. unfold Main.loop.
  induction ticks as [|e ticks IH]; intros ss Hq.
  - cbn. repeat split; constructor.
  - cbn [forallb] in Hq. apply andb_prop in Hq as [He Hq].
    destruct (quiet_tick_run e ss He) as (t1 & t2 & ss' & Et & F1 & F2 & Hpres).
    destruct (IH ss' Hq) as (Ho & Hr & Hc & Hh).
    destruct (row_columns ss ss' Hpres) as [Rc Rh].
    destruct (not_row_columns t1 F1) as [C1 D1].
    destruct (not_row_columns t2 F2) as [C2 D2].
    assert (for_each (e :: ticks) Main.tick ss
            = (Ok tt, state_after (for_each ticks Main.tick) ss',
               (t1 ++ t2 ++ [Main.row ss'; EvSleep 1])
               ++ trace_of (for_each ticks Main.tick) ss')) as E.
    { cbn [for_each]. rewrite bind_run.
      unfold outcome_of, state_after, trace_of in *.
      rewrite Et. cbn [fst snd]. now rewrite Ho. }
    unfold outcome_of, trace_of in *. rewrite E. cbn [fst snd].
    split; [reflexivity|]. split; [|split].
    + rewrite !rows_app, (rows_none t1 F1), (rows_none t2 F2), Hr.
      reflexivity.
    + intros Hnone.
      assert (Main.ifit ss' = None) as Hnone'.
      { destruct Hpres as [Hi _]. rewrite Hnone in Hi.
        destruct (Main.ifit ss'); [discriminate|reflexivity]. }
      apply Forall_app. split; [|now apply Hc].
      apply Forall_app. split; [exact C1|].
      apply Forall_app. split; [exact C2|].
      constructor; [now apply Rc|]. constructor; [exact I|constructor].
    + intros Hnone.
      assert (Main.polar ss' = None) as Hnone'.
      { destruct Hpres as [_ Hp]. rewrite Hnone in Hp.
        destruct (Main.polar ss'); [discriminate|reflexivity]. }
      apply Forall_app. split; [|now apply Hh].
      apply Forall_app. split; [exact D1|].
      apply Forall_app. split; [exact D2|].
      constructor; [now apply Rh|]. constructor; [exact I|constructor].
Qed.

Lemma one_row_per_tick_witness :
  let ei := IFitDevice.mk_env (Ok tt) true (Ok tt) (fun _ => Raise BleakError)
              (Ok tt) (Ok tt) in
  let ep := PolarDevice.mk_env true (Ok tt) true 1000 (Ok tt) 1000
              (Raise BleakError) 1000 (Ok tt) (Ok tt) in
  let e := Main.mk_tick ei ep (Ok tt) in
  let ss := Main.mk None (Some (PolarDevice.mk "C0:FF:EE" true 72 0 true 0 0)) in
  rows (trace_of (Main.loop [e; e; e]) ss) = 3%nat /\
  Forall console_columns_empty (trace_of (Main.loop [e; e; e]) ss).
Proof.
  intros ei ep e ss.
  destruct (one_row_per_tick [e; e; e] ss eq_refl) as (_ & Hr & Hc & _).
  split; [exact Hr|exact (Hc eq_refl)].
Defined.

(** ** Failures before the guarded part *)

(** The console is connected before [main] enters its [try] block: when a
    console was found and its connect fails, [main] ends with that error
    after the connect attempt alone; the strap session is never constructed
    and no [close] is entered. *)
Theorem console_connect_failure_ends_main
    (devices : list Startup.scanned)
    (ci0 : IFitDevice.env) (cp0 : PolarDevice.env)
    (ei : IFitDevice.env) (ep : PolarDevice.env)
    (ticks : list Main.tick_env) (ci : IFitDevice.env) (cp : PolarDevice.env)
    (a : string) (x : exn)
    (Hfound : usable (fst (Startup.choose devices)) = Some a)
    (Hfail : IFitDevice.connect_res ci0 = Raise x) :
  outcome_of (Startup.main devices ci0 cp0 ei ep ticks ci cp)
    Startup.no_sessions = Raise x /\
  trace_of (Startup.main devices ci0 cp0 ei ep ticks ci cp)
    Startup.no_sessions = [EvCall Console "connect"; EvConnect Console] /\
  Main.polar (state_after (Startup.main devices ci0 cp0 ei ep ticks ci cp)
                Startup.no_sessions) = None.
Proof.
  unfold Startup.main.
  destruct (Startup.choose devices) as [ia pa]. cbn [fst] in Hfound.
  unfold usable in Hfound.
  destruct (Startup.truthy ia) eqn:Ht; [|discriminate]. subst ia.
  cbv beta iota zeta.
  unfold outcome_of, state_after, trace_of.
  rewrite bind_run. unfold outcome_of, state_after, trace_of.
  rewrite bind_modify, on_ifit_run. cbn [Main.ifit fst snd].
  unfold outcome_of, state_after, trace_of.
  rewrite console_connect_run, Hfail. cbn [fst snd Main.polar Startup.no_sessions].
  repeat split.
Qed.

Lemma console_connect_failure_ends_main_witness :
  let treadmill := Startup.mk_scanned (Some "I_TL")%string "AA:01"%string
                     ["00001533-1412-efde-1523-785feabcd123"%string] in
  let strap := Startup.mk_scanned (Some "Polar H10")%string "BB:02"%string [] in
  let ci0 := IFitDevice.mk_env (Raise BleakError) false (Ok tt) (fun _ => Ok tt)
               (Ok tt) (Ok tt) in
  let ep := PolarDevice.mk_env true (Ok tt) true 1000 (Ok tt) 1000
              (Ok [x5a]) 1000 (Ok tt) (Ok tt) in
  trace_of (Startup.main [treadmill; strap] ci0 ep ci0 ep [] ci0 ep)
    Startup.no_sessions = [EvCall Console "connect"; EvConnect Console].
Proof.
  intros treadmill strap ci0 ep.
  exact (proj1 (proj2 (console_connect_failure_ends_main [treadmill; strap]
                         ci0 ep ci0 ep [] ci0 ep "AA:01" BleakError
                         eq_refl eq_refl))).
Defined.

(** ** The console is never reconnected *)

Lemma guarded_events_not_console_connect ei ep ticks ci cp :
  emits_only (fun ev => ev <> EvConnect Console)
    (Main.guarded ei ep ticks ci cp).
Proof.
  unfold Main.guarded, Main.body, Main.cleanup, Main.loop, Main.tick, Main.row.
  repeat (first
            [ apply emits_on_ifit; [discriminate|]
            | apply emits_on_polar; [discriminate|]
            | emits_step ];
          try discriminate);
    unfold IFitDevice.setup, IFitDevice.update, IFitDevice.close,
      PolarDevice.update, PolarDevice.setup, PolarDevice.close,
      PolarDevice.connect, PolarDevice._read_battery, getitem;
    repeat (emits_step; try discriminate).
Qed.

(** Once [main] is in its [try] block the console is never connected again:
    whatever the transport answers and however long the loop runs, setup,
    polling and cleanup perform no connect on the console, while the strap is
    reconnected by its [update]. *)
Theorem console_never_reconnects
    (ei : IFitDevice.env) (ep : PolarDevice.env) (ticks : list Main.tick_env)
    (ci : IFitDevice.env) (cp : PolarDevice.env) (ss : Main.sessions) :
  ~ In (EvConnect Console) (trace_of (Main.guarded ei ep ticks ci cp) ss).
Proof.
  intros Hin.
  pose proof (guarded_events_not_console_connect ei ep ticks ci cp ss) as H.
  rewrite Forall_forall in H. exact (H _ Hin eq_refl).
Qed.
